(** * Tremor / dyskinesia detector (B-L475E-IOT01A, LSM6DSL): a shallow embedding

    The development follows [src/main.cpp]: the sample conversion of the
    calibration loop and of the acquisition loop, the calibration estimator,
    the spectral analyzer and the threshold logic of the [analyze] closure,
    the tie-break with its stability counters, and the LED feedback.

    Numbers are modelled as the program has them:
    - [float] is IEEE-754 binary32, through the Standard Library's
      [SpecFloat] operations at precision 24 and maximal exponent 128
      (round to nearest, ties to even), every operation of the source
      rounded on its own (no fused multiply-add);
    - [int] is a 32-bit two's complement integer, carried in [Z] with its
      wrap-around written out; [int16_t] likewise;
    - a [uint8_t] register byte is a [Byte.byte].

    The busy wait on [tick_flag] is not modelled: the loops read a list of
    ticks, one element per due-signal they consume. Debug output is left
    out.

    The CMSIS-DSP transform ([arm_rfft_fast_f32] followed by
    [arm_cmplx_mag_f32]) is a library outside the repository: the analyzer
    is stated over the magnitude array it produces, and the transform is a
    section variable where a statement is about the time-domain buffer. *)

From Stdlib Require Import ZArith List Bool Lia.
From Stdlib Require Import Strings.Byte.
From Stdlib Require Import Floats.SpecFloat.
Import ListNotations.
Open Scope Z_scope.

(** ** Binary32 arithmetic *)

Module F32.

Definition float : Type := spec_float.

Definition prec : Z := 24.
Definition emax : Z := 128.

Definition fadd : float -> float -> float := SFadd prec emax.
Definition fsub : float -> float -> float := SFsub prec emax.
Definition fmul : float -> float -> float := SFmul prec emax.
Definition fdiv : float -> float -> float := SFdiv prec emax.
Definition fsqrt : float -> float := SFsqrt prec emax.

(** The comparisons of C on floats: each is false when an operand is NaN. *)
Definition fltb (x y : float) : bool := SFltb x y.
Definition fleb (x y : float) : bool := SFleb x y.
Definition fgtb (x y : float) : bool := SFltb y x.
Definition fgeb (x y : float) : bool := SFleb y x.
Definition feqb (x y : float) : bool := SFeqb x y.

Definition is_nan (x : float) : bool :=
  match x with S754_nan => true | _ => false end.

Definition fzero : float := S754_zero false.

(** Conversion of an integer to [float] (exact below 2^24 in magnitude). *)
Definition of_int (z : Z) : float := binary_normalize prec emax z 0 false.

(** A decimal literal [n/d] with [n] and [d] below 2^24: both integers are
    exact in binary32, so their correctly rounded quotient is the binary32
    number nearest to the decimal, which is what the C literal denotes. *)
Definition lit (n d : Z) : float := fdiv (of_int n) (of_int d).

(** [fmaxf] and [fminf] as in newlib: a NaN operand yields the other
    operand, otherwise the comparison picks. *)
Definition fmaxf (x y : float) : float :=
  if is_nan x then y else if is_nan y then x else if fgtb x y then x else y.

Definition fminf (x y : float) : float :=
  if is_nan x then y else if is_nan y then x else if fltb x y then x else y.

(** [roundf]: nearest integer, halfway cases away from zero. *)
Definition roundf (x : float) : float :=
  match x with
  | S754_finite s m e =>
      if 0 <=? e then x
      else
        let d := 2 ^ (- e) in
        let q := (2 * Zpos m + d) / (2 * d) in
        binary_normalize prec emax (if s then - q else q) 0 s
  | _ => x
  end.

Definition INT_MIN : Z := - 2 ^ 31.
Definition INT_MAX : Z := 2 ^ 31 - 1.

(** Conversion of a [float] to [int]: truncation toward zero; the
    conversion is undefined (here [None]) for NaN, infinities and values
    outside the range of [int]. *)
Definition float_to_int (x : float) : option Z :=
  match x with
  | S754_zero _ => Some 0
  | S754_finite s m e =>
      let a := if 0 <=? e then Zpos m * 2 ^ e else Zpos m / 2 ^ (- e) in
      let z := if s then - a else a in
      if (INT_MIN <=? z) && (z <=? INT_MAX) then Some z else None
  | _ => None
  end.

End F32.
Import F32.

(** Signed 32-bit wrap-around of [int] arithmetic. *)
Definition wrap32 (z : Z) : Z := (z + 2 ^ 31) mod 2 ^ 32 - 2 ^ 31.

(** Conversion to [int16_t]. *)
Definition to_int16 (z : Z) : Z := (z + 2 ^ 15) mod 2 ^ 16 - 2 ^ 15.

(** ** Configuration block of [main.cpp] *)

Definition ACC_T_TH : float := Eval vm_compute in lit 10 100.
Definition ACC_D_TH : float := Eval vm_compute in lit 10 100.
Definition GYR_T_TH : float := Eval vm_compute in of_int 10.
Definition GYR_D_TH : float := Eval vm_compute in of_int 10.
Definition PEAK_TO_RMS : float := Eval vm_compute in lit 15 10.

Definition STABLE_WINDOWS : Z := 1.
Definition CALIBRATION_WINDOWS : Z := 5.

Definition Fs : Z := 104.
Definition WIN_S : Z := 1.
Definition N : Z := Fs * WIN_S.
Definition FFTN : Z := 256.

(** The LSB scale factors [0.000061f] and [0.00875f]. *)
Definition ACC_LSB : float := Eval vm_compute in lit 61 1000000.
Definition GYR_LSB : float := Eval vm_compute in lit 875 100000.

(** The RMS floor multiplier [0.5f] and the level scales [0.5f], [100.f]. *)
Definition RMS_FLOOR : float := Eval vm_compute in lit 5 10.
Definition ACC_SCALE : float := Eval vm_compute in lit 5 10.
Definition GYR_SCALE : float := Eval vm_compute in of_int 100.
Definition fone : float := Eval vm_compute in of_int 1.

(** ** Sensor frames and sample conversion *)

(** The six bytes [data[0..5]] filled by one burst read [rN]. *)
Record frame : Type := mkFrame { d0 : byte; d1 : byte; d2 : byte; d3 : byte; d4 : byte; d5 : byte }.

Definition u8 (b : byte) : Z := Z.of_N (Byte.to_N b).

(** [data[i] | (data[i+1] << 8)]: both bytes are promoted to [int], so the
    expression is an [int] between 0 and 65535. *)
Definition assemble (lo hi : byte) : Z := Z.lor (u8 lo) (Z.shiftl (u8 hi) 8).

(** Calibration loop: the [int] expression is multiplied by the scale as it is. *)
Definition cal_phys (lo hi : byte) (lsb : float) : float :=
  fmul (of_int (assemble lo hi)) lsb.

(** Acquisition loop: the expression is first stored in an [int16_t]. *)
Definition live_raw (lo hi : byte) : Z := to_int16 (assemble lo hi).

Definition live_phys (lo hi : byte) (lsb : float) : float :=
  fmul (of_int (live_raw lo hi)) lsb.

(** One consumed due-signal: the outcome of the accelerometer read and, when
    the program gets that far, of the gyroscope read; [None] is a nonzero
    status of [rN]. *)
Record tick : Type := mkTick { acc_read : option frame; gyr_read : option frame }.

Definition ok_tick (p : frame * frame) : tick := mkTick (Some (fst p)) (Some (snd p)).

(** ** Program state *)

Record vec3 : Type := mkVec3 { v0 : float; v1 : float; v2 : float }.

Record globals : Type := mkGlobals {
  stable_tremor : Z;
  stable_dyskinesia : Z;
  baseline_acc : vec3;
  baseline_gyr : vec3;
  is_calibrated : bool
}.

Definition vzero : vec3 := mkVec3 fzero fzero fzero.

Definition boot : globals := mkGlobals 0 0 vzero vzero false.

Definition set_baseline_acc (g : globals) (v : vec3) : globals :=
  mkGlobals (stable_tremor g) (stable_dyskinesia g) v (baseline_gyr g) (is_calibrated g).

Definition set_baseline_gyr (g : globals) (v : vec3) : globals :=
  mkGlobals (stable_tremor g) (stable_dyskinesia g) (baseline_acc g) v (is_calibrated g).

Definition set_counters (g : globals) (t d : Z) : globals :=
  mkGlobals t d (baseline_acc g) (baseline_gyr g) (is_calibrated g).

(** ** Calibration *)

(** [baseline[i] += (data[2i] | (data[2i+1] << 8)) * lsb] for the three axes. *)
Definition accumulate (v : vec3) (f : frame) (lsb : float) : vec3 :=
  mkVec3 (fadd (v0 v) (cal_phys (d0 f) (d1 f) lsb))
         (fadd (v1 v) (cal_phys (d2 f) (d3 f) lsb))
         (fadd (v2 v) (cal_phys (d4 f) (d5 f) lsb)).

(** The body of the calibration [while] for one due-signal. *)
Definition cal_tick (g : globals) (idx : Z) (t : tick) : globals * Z :=
  match acc_read t with
  | None => (g, idx)
  | Some a =>
      let g1 := set_baseline_acc g (accumulate (baseline_acc g) a ACC_LSB) in
      match gyr_read t with
      | None => (g1, idx)
      | Some w =>
          (set_baseline_gyr g1 (accumulate (baseline_gyr g1) w GYR_LSB), idx + 1)
      end
  end.

(** [while (idx < N)] over the due-signals that arrive; [None] when they run
    out while the loop is still waiting. *)
Fixpoint cal_window (ts : list tick) (g : globals) (idx : Z) {struct ts}
  : option (globals * list tick) :=
  if idx <? N then
    match ts with
    | [] => None
    | t :: ts' => let '(g', idx') := cal_tick g idx t in cal_window ts' g' idx'
    end
  else Some (g, ts).

(** [for (int i = 0; i < CALIBRATION_WINDOWS; i++)], [n] windows to go. *)
Fixpoint cal_windows (n : nat) (ts : list tick) (g : globals)
  : option (globals * list tick) :=
  match n with
  | O => Some (g, ts)
  | S n' =>
      match cal_window ts g 0 with
      | Some (g', ts') => cal_windows n' ts' g'
      | None => None
      end
  end.

(** [baseline[i] /= (CALIBRATION_WINDOWS * N)]. *)
Definition cal_divide (v : vec3) : vec3 :=
  let n := of_int (CALIBRATION_WINDOWS * N) in
  mkVec3 (fdiv (v0 v) n) (fdiv (v1 v) n) (fdiv (v2 v) n).

Definition cal_finish (g : globals) : globals :=
  mkGlobals (stable_tremor g) (stable_dyskinesia g)
            (cal_divide (baseline_acc g)) (cal_divide (baseline_gyr g)) true.

Definition calibrate (ts : list tick) (g : globals) : option (globals * list tick) :=
  match cal_windows (Z.to_nat CALIBRATION_WINDOWS) ts g with
  | Some (g', ts') => Some (cal_finish g', ts')
  | None => None
  end.

(** ** Window acquisition *)

Record buffers : Type := mkBuffers {
  ax : list float; ay : list float; az : list float;
  gx : list float; gy : list float; gz : list float
}.

(** [a[i] = v] inside the array; the loops keep the index below [N], and an
    index outside the array (undefined in C++) leaves the list as it is. *)
Fixpoint store_nat (l : list float) (i : nat) (v : float) : list float :=
  match l, i with
  | [], _ => []
  | _ :: l', O => v :: l'
  | x :: l', S i' => x :: store_nat l' i' v
  end.

Definition store (l : list float) (i : Z) (v : float) : list float :=
  if i <? 0 then l else store_nat l (Z.to_nat i) v.

(** The body of the acquisition [while] for one due-signal. *)
Definition acq_tick (g : globals) (b : buffers) (idx : Z) (t : tick) : buffers * Z :=
  match acc_read t with
  | None => (b, idx)
  | Some a =>
      let axr := live_raw (d0 a) (d1 a) in
      let ayr := live_raw (d2 a) (d3 a) in
      let azr := live_raw (d4 a) (d5 a) in
      match gyr_read t with
      | None => (b, idx)
      | Some w =>
          let gxr := live_raw (d0 w) (d1 w) in
          let gyr := live_raw (d2 w) (d3 w) in
          let gzr := live_raw (d4 w) (d5 w) in
          (mkBuffers
             (store (ax b) idx (fsub (fmul (of_int axr) ACC_LSB) (v0 (baseline_acc g))))
             (store (ay b) idx (fsub (fmul (of_int ayr) ACC_LSB) (v1 (baseline_acc g))))
             (store (az b) idx (fsub (fmul (of_int azr) ACC_LSB) (v2 (baseline_acc g))))
             (store (gx b) idx (fsub (fmul (of_int gxr) GYR_LSB) (v0 (baseline_gyr g))))
             (store (gy b) idx (fsub (fmul (of_int gyr) GYR_LSB) (v1 (baseline_gyr g))))
             (store (gz b) idx (fsub (fmul (of_int gzr) GYR_LSB) (v2 (baseline_gyr g)))),
           idx + 1)
      end
  end.

Fixpoint acq_window (ts : list tick) (g : globals) (b : buffers) (idx : Z) {struct ts}
  : option (buffers * list tick) :=
  if idx <? N then
    match ts with
    | [] => None
    | t :: ts' => let '(b', idx') := acq_tick g b idx t in acq_window ts' g b' idx'
    end
  else Some (b, ts).

(** [for (size_t i = N; i < FFTN; i++) a[i] = 0], [n] entries from [i]. *)
Fixpoint zero_from (n : nat) (i : Z) (l : list float) : list float :=
  match n with
  | O => l
  | S n' => zero_from n' (i + 1) (store l i fzero)
  end.

Definition zero_pad (l : list float) : list float :=
  zero_from (Z.to_nat (FFTN - N)) N l.

Definition zero_pad_all (b : buffers) : buffers :=
  mkBuffers (zero_pad (ax b)) (zero_pad (ay b)) (zero_pad (az b))
            (zero_pad (gx b)) (zero_pad (gy b)) (zero_pad (gz b)).

(** ** Spectral analyzer *)

(** [int i = roundf(hz * FFTN / Fs)], with [FFTN] and [Fs] converted to [float]. *)
Definition bin_index (hz : float) : option Z :=
  float_to_int (roundf (fdiv (fmul hz (of_int FFTN)) (of_int Fs))).

Record bins : Type := mkBins { i3 : Z; i5 : Z; i7 : Z }.

Definition startup_bins : option bins :=
  match bin_index (of_int 3), bin_index (of_int 5), bin_index (of_int 7) with
  | Some a, Some b, Some c => Some (mkBins a b c)
  | _, _, _ => None
  end.

(** A read [mag[k]]: [None] outside the array. *)
Definition mag_at (mag : list float) (k : Z) : option float :=
  if k <? 0 then None else nth_error mag (Z.to_nat k).

(** [n] iterations of a loop body from counter value [k], the counter going
    up by one; a failing body (an access outside the array) stops the loop. *)
Fixpoint for_range {A : Type} (n : nat) (k : Z) (body : Z -> A -> option A) (a : A)
  : option A :=
  match n with
  | O => Some a
  | S n' =>
      match body k a with
      | Some a' => for_range n' (k + 1) body a'
      | None => None
      end
  end.

(** [for (int k = lo; k < hi; k++)]. *)
Definition for_lt {A : Type} (lo hi : Z) (body : Z -> A -> option A) (a : A) : option A :=
  for_range (Z.to_nat (hi - lo)) lo body a.

(** [for (int k = lo; k <= hi; k++)]. *)
Definition for_le {A : Type} (lo hi : Z) (body : Z -> A -> option A) (a : A) : option A :=
  for_range (Z.to_nat (hi + 1 - lo)) lo body a.

(** [rms += mag[k] * mag[k]]. *)
Definition rms_body (mag : list float) (k : Z) (acc : float) : option float :=
  match mag_at mag k with
  | Some m => Some (fadd acc (fmul m m))
  | None => None
  end.

(** [if (mag[k] > p) { p = mag[k]; kp = k; }]. *)
Definition peak_body (mag : list float) (k : Z) (pk : float * Z) : option (float * Z) :=
  match mag_at mag k with
  | Some m => Some (if fgtb m (fst pk) then (m, k) else pk)
  | None => None
  end.

Record spectral_result : Type := mkSpectral {
  rms : float;
  peak_3_5 : float;
  peak_3_5_bin : Z;
  peak_5_7 : float;
  peak_5_7_bin : Z
}.

(** The part of [analyze] between the transform and the threshold logic. *)
Definition spectral (b : bins) (mag : list float) : option spectral_result :=
  match for_lt 1 (wrap32 (i7 b + 3)) (rms_body mag) fzero with
  | None => None
  | Some s =>
      let r := fsqrt (fdiv s (of_int (wrap32 (i7 b + 2)))) in
      match for_le (i3 b) (i5 b) (peak_body mag) (fzero, i3 b) with
      | None => None
      | Some (p35, k35) =>
          match for_le (i5 b) (i7 b) (peak_body mag) (fzero, i5 b) with
          | None => None
          | Some (p57, k57) => Some (mkSpectral r p35 k35 p57 k57)
          end
      end
  end.

(** ** Decision engine *)

Record decision : Type := mkDecision { trem : bool; dysk : bool; levelT : float; levelD : float }.

Definition no_decision : decision := mkDecision false false fzero fzero.

(** [p >= th && p / rms > PEAK_TO_RMS && rms > th * 0.5f]. *)
Definition band_test (p r th : float) : bool :=
  fgeb p th && fgtb (fdiv p r) PEAK_TO_RMS && fgtb r (fmul th RMS_FLOOR).

(** The threshold logic at the end of [analyze], on the captured
    [trem], [dysk], [levelT], [levelD]. *)
Definition decide (tth dth scale : float) (r : spectral_result) (a : decision) : decision :=
  let a1 :=
    if band_test (peak_3_5 r) (rms r) tth
    then mkDecision true (dysk a) (fmaxf (levelT a) (fdiv (peak_3_5 r) scale)) (levelD a)
    else a in
  if band_test (peak_5_7 r) (rms r) dth
  then mkDecision (trem a1) true (levelT a1) (fmaxf (levelD a1) (fdiv (peak_5_7 r) scale))
  else a1.

Inductive channel : Type := AX | AY | AZ | GX | GY | GZ.

Definition channels : list channel := [AX; AY; AZ; GX; GY; GZ].

Definition is_accel (c : channel) : bool :=
  match c with AX | AY | AZ => true | _ => false end.

Definition tth_of (c : channel) : float := if is_accel c then ACC_T_TH else GYR_T_TH.
Definition dth_of (c : channel) : float := if is_accel c then ACC_D_TH else GYR_D_TH.
Definition scale_of (c : channel) : float := if is_accel c then ACC_SCALE else GYR_SCALE.

(** [levelT = fminf(levelT, 1.0f); levelD = fminf(levelD, 1.0f)]. *)
Definition clamp (a : decision) : decision :=
  mkDecision (trem a) (dysk a) (fminf (levelT a) fone) (fminf (levelD a) fone).

(** The six calls of [analyze] in program order, given what the spectral
    part found for each channel, then the clamp. *)
Definition decide_window (rs : channel -> spectral_result) : decision :=
  clamp (fold_left (fun a c => decide (tth_of c) (dth_of c) (scale_of c) (rs c) a)
                   channels no_decision).

Definition buffer_of (b : buffers) (c : channel) : list float :=
  match c with
  | AX => ax b | AY => ay b | AZ => az b
  | GX => gx b | GY => gy b | GZ => gz b
  end.

Section Analysis.

(** [arm_rfft_fast_f32] followed by [arm_cmplx_mag_f32]: from a buffer of
    [FFTN] samples to the [FFTN / 2] magnitudes. *)
Variable transform_mag : list float -> list float.

Definition analyze (b : bins) (d : list float) (tth dth scale : float) (a : decision)
  : option decision :=
  match spectral b (transform_mag d) with
  | Some r => Some (decide tth dth scale r a)
  | None => None
  end.

Fixpoint analyze_channels (b : bins) (bufs : buffers) (cs : list channel) (a : decision)
  : option decision :=
  match cs with
  | [] => Some a
  | c :: cs' =>
      match analyze b (buffer_of bufs c) (tth_of c) (dth_of c) (scale_of c) a with
      | Some a' => analyze_channels b bufs cs' a'
      | None => None
      end
  end.

Definition analyze_window (b : bins) (bufs : buffers) : option decision :=
  match analyze_channels b bufs channels no_decision with
  | Some a => Some (clamp a)
  | None => None
  end.

End Analysis.

(** ** Tie-break, stability filter and LED feedback *)

Inductive outcome : Type := WinDyskinesia | WinTremor | WinNone.

(** The branch taken by
    [if (dysk && (!trem || levelD >= levelT)) ... else if (trem) ... else ...]. *)
Definition tie_break (w : decision) : outcome :=
  if dysk w && (negb (trem w) || fgeb (levelD w) (levelT w)) then WinDyskinesia
  else if trem w then WinTremor
  else WinNone.

Record leds : Type := mkLeds {
  tremor_duty : float;
  tremor_period_ms : Z;
  dyskinesia_duty : float;
  dyskinesia_period_ms : Z;
  led_status : bool;
  led_power : bool
}.

Definition leds_boot : leds := mkLeds fzero 1 fzero 1 false false.

Record step_result : Type := mkStep {
  next : globals;
  lights : leds;
  show_tremor : bool;
  show_dyskinesia : bool
}.

(** The LED block: both PWM outputs are written 0, then the shown condition
    gets its period and the level as duty cycle. *)
Definition led_feedback (l : leds) (w : decision) (show_t show_d : bool) : leds :=
  if show_d then
    mkLeds fzero (tremor_period_ms l) (levelD w) 200 (show_t || show_d) false
  else if show_t then
    mkLeds (levelT w) 500 fzero (dyskinesia_period_ms l) (show_t || show_d) false
  else
    mkLeds fzero (tremor_period_ms l) fzero (dyskinesia_period_ms l) (show_t || show_d) false.

(** The decision step of one window; [sw] is [STABLE_WINDOWS]. The
    increment of a counter wraps as two's complement: overflow of an [int]
    is undefined in C++, and the statements about runs below keep the
    counter under [INT_MAX]. *)
Definition window_step (sw : Z) (g : globals) (l : leds) (w : decision) : step_result :=
  match tie_break w with
  | WinDyskinesia =>
      let d := wrap32 (stable_dyskinesia g + 1) in
      let show_d := sw <=? d in
      mkStep (set_counters g 0 d) (led_feedback l w false show_d) false show_d
  | WinTremor =>
      let t := wrap32 (stable_tremor g + 1) in
      let show_t := sw <=? t in
      mkStep (set_counters g t 0) (led_feedback l w show_t false) show_t false
  | WinNone =>
      mkStep (set_counters g 0 0) (led_feedback l w false false) false false
  end.

(** The windows of a run, one step result per window. *)
Fixpoint run (sw : Z) (g : globals) (l : leds) (ws : list decision) : list step_result :=
  match ws with
  | [] => []
  | w :: ws' =>
      let r := window_step sw g l w in
      r :: run sw (next r) (lights r) ws'
  end.

(** ** Notions used in the statements *)

(** The sum of the squared magnitudes of a list of bins, added left to right
    from 0 in binary32. *)
Definition sum_sq (ms : list float) : float :=
  fold_left (fun acc m => fadd acc (fmul m m)) ms fzero.

(** [p] is the maximum of [mag] over the bins [lo..hi] and [kp] is the first
    bin, in ascending order, that holds it. *)
Definition first_max (mag : list float) (lo hi : Z) (p : float) (kp : Z) : Prop :=
  lo <= kp <= hi /\
  (exists m, mag_at mag kp = Some m /\ feqb m p = true) /\
  (forall k m, lo <= k <= hi -> mag_at mag k = Some m -> fleb m p = true) /\
  (forall k m, lo <= k < kp -> mag_at mag k = Some m -> fltb m p = true).

(** The state of a peak loop that started at bin [lo] and is about to read
    bin [k]. *)
Definition scanned (mag : list float) (lo k : Z) (pk : float * Z) : Prop :=
  fleb fzero (fst pk) = true /\
  lo <= snd pk /\
  (forall j m, lo <= j < k -> mag_at mag j = Some m -> fleb m (fst pk) = true) /\
  (forall j m, lo <= j < snd pk -> mag_at mag j = Some m -> fltb m (fst pk) = true) /\
  ((fst pk = fzero /\ snd pk = lo) \/ (snd pk < k /\ mag_at mag (snd pk) = Some (fst pk))).

(** Neither band test of channel [c] passes on [r]. *)
Definition silent (c : channel) (r : spectral_result) : Prop :=
  band_test (peak_3_5 r) (rms r) (tth_of c) = false /\
  band_test (peak_5_7 r) (rms r) (dth_of c) = false.

(** The value that the calibration loop adds to the running sum of channel
    [c] on a tick whose two reads returned the frames [p]: the loop's own
    conversion, which takes the reading as unsigned. *)
Definition cal_sample (c : channel) (p : frame * frame) : float :=
  match c with
  | AX => cal_phys (d0 (fst p)) (d1 (fst p)) ACC_LSB
  | AY => cal_phys (d2 (fst p)) (d3 (fst p)) ACC_LSB
  | AZ => cal_phys (d4 (fst p)) (d5 (fst p)) ACC_LSB
  | GX => cal_phys (d0 (snd p)) (d1 (snd p)) GYR_LSB
  | GY => cal_phys (d2 (snd p)) (d3 (snd p)) GYR_LSB
  | GZ => cal_phys (d4 (snd p)) (d5 (snd p)) GYR_LSB
  end.

Definition baseline_of (g : globals) (c : channel) : float :=
  match c with
  | AX => v0 (baseline_acc g) | AY => v1 (baseline_acc g) | AZ => v2 (baseline_acc g)
  | GX => v0 (baseline_gyr g) | GY => v1 (baseline_gyr g) | GZ => v2 (baseline_gyr g)
  end.

(** The globals after a calibration tick whose two reads succeeded. *)
Definition add_pair (g : globals) (p : frame * frame) : globals :=
  set_baseline_gyr
    (set_baseline_acc g (accumulate (baseline_acc g) (fst p) ACC_LSB))
    (accumulate (baseline_gyr g) (snd p) GYR_LSB).

(** [p] holds of the [n] integers from [k] on. *)
Fixpoint all_from (n : nat) (k : Z) (p : Z -> bool) : bool :=
  match n with
  | O => true
  | S n' => p k && all_from n' (k + 1) p
  end.

(** The stability counter, the shown flag, the written duty cycle and the
    level that belong to a winning condition. *)
Definition counter_of (o : outcome) (g : globals) : Z :=
  match o with
  | WinTremor => stable_tremor g
  | WinDyskinesia => stable_dyskinesia g
  | WinNone => 0
  end.

Definition shown (o : outcome) (r : step_result) : bool :=
  match o with
  | WinTremor => show_tremor r
  | WinDyskinesia => show_dyskinesia r
  | WinNone => false
  end.

Definition duty_of (o : outcome) (l : leds) : float :=
  match o with
  | WinTremor => tremor_duty l
  | WinDyskinesia => dyskinesia_duty l
  | WinNone => fzero
  end.

Definition level_of (o : outcome) (w : decision) : float :=
  match o with
  | WinTremor => levelT w
  | WinDyskinesia => levelD w
  | WinNone => fzero
  end.

Definition zero_buffer : list float := repeat fzero (Z.to_nat FFTN).

Definition zero_buffers : buffers :=
  mkBuffers zero_buffer zero_buffer zero_buffer zero_buffer zero_buffer zero_buffer.

Definition zero_result (b : bins) : spectral_result :=
  mkSpectral fzero fzero (i3 b) fzero (i5 b).

(** The scenario window: channel AX has a 3-5 Hz peak of 0.15 at bin 10 and
    the RMS [r], nothing in the 5-7 Hz band; the other channels are at rest. *)
Definition scenario_results (r : float) (c : channel) : spectral_result :=
  match c with
  | AX => mkSpectral r (lit 15 100) 10 fzero 12
  | _ => zero_result (mkBins 7 12 17)
  end.

(** A frame whose three axes all read the same two bytes. *)
Definition frame_of (lo hi : byte) : frame := mkFrame lo hi lo hi lo hi.

(** What a decision step leaves exclusive: the two shown flags, the two
    stability counters, the two PWM duty cycles. *)
Definition exclusive (r : step_result) : Prop :=
  show_tremor r && show_dyskinesia r = false /\
  (stable_tremor (next r) = 0 \/ stable_dyskinesia (next r) = 0) /\
  (tremor_duty (lights r) = fzero \/ dyskinesia_duty (lights r) = fzero).

(** Sample window decisions: both tests passed with equal levels; only the
    tremor test passed, with level [lv]. *)
Definition both_pass_equal : decision :=
  mkDecision true true (lit 30 100) (lit 30 100).

Definition tremor_only (lv : float) : decision := mkDecision true false lv fzero.

(** ** The rest of the program *)

(** The accelerometer read of a tick succeeded; both reads succeeded. *)
Definition acc_ok (t : tick) : bool :=
  match acc_read t with Some _ => true | None => false end.

Definition complete (t : tick) : bool :=
  match acc_read t, gyr_read t with
  | Some _, Some _ => true
  | _, _ => false
  end.

(** The number of ticks of a list on which both reads succeeded. *)
Definition count_complete (ts : list tick) : Z :=
  Z.of_nat (length (filter complete ts)).

(** What a calibration tick does to the globals (the window index plays no
    part in it). *)
Definition cal_effect (g : globals) (t : tick) : globals := fst (cal_tick g 0 t).


(** The value the acquisition loop stores for channel [c] on a tick whose
    two reads returned the frames [p]. *)
Definition live_sample (g : globals) (c : channel) (p : frame * frame) : float :=
  match c with
  | AX => fsub (live_phys (d0 (fst p)) (d1 (fst p)) ACC_LSB) (v0 (baseline_acc g))
  | AY => fsub (live_phys (d2 (fst p)) (d3 (fst p)) ACC_LSB) (v1 (baseline_acc g))
  | AZ => fsub (live_phys (d4 (fst p)) (d5 (fst p)) ACC_LSB) (v2 (baseline_acc g))
  | GX => fsub (live_phys (d0 (snd p)) (d1 (snd p)) GYR_LSB) (v0 (baseline_gyr g))
  | GY => fsub (live_phys (d2 (snd p)) (d3 (snd p)) GYR_LSB) (v1 (baseline_gyr g))
  | GZ => fsub (live_phys (d4 (snd p)) (d5 (snd p)) GYR_LSB) (v2 (baseline_gyr g))
  end.

(** "Collect N samples" followed by "Zero-pad": the buffers handed to the
    analysis and the ticks left for the next window. *)
Definition acquire (ts : list tick) (g : globals) (b : buffers)
  : option (buffers * list tick) :=
  match acq_window ts g b 0 with
  | Some (b', rest) => Some (zero_pad_all b', rest)
  | None => None
  end.

(** The six buffers have [FFTN] entries each. *)
Definition well_sized (b : buffers) : Prop :=
  forall c, Z.of_nat (length (buffer_of b c)) = FFTN.

(** A value between 0 and 1 (and so not a NaN). *)
Definition unit_range (x : float) : Prop :=
  fleb fzero x = true /\ fleb x fone = true.

(** The two band tests of channel [c] on what the analyzer found, the
    levels the channel contributes, and the effect of its [analyze] call. *)
Definition pass_T (rs : channel -> spectral_result) (c : channel) : bool :=
  band_test (peak_3_5 (rs c)) (rms (rs c)) (tth_of c).

Definition pass_D (rs : channel -> spectral_result) (c : channel) : bool :=
  band_test (peak_5_7 (rs c)) (rms (rs c)) (dth_of c).

Definition contrib_T (rs : channel -> spectral_result) (c : channel) : float :=
  fdiv (peak_3_5 (rs c)) (scale_of c).

Definition contrib_D (rs : channel -> spectral_result) (c : channel) : float :=
  fdiv (peak_5_7 (rs c)) (scale_of c).

Definition agg_step (rs : channel -> spectral_result) (a : decision) (c : channel)
  : decision :=
  decide (tth_of c) (dth_of c) (scale_of c) (rs c) a.

(** What a peak loop over the bins [lo..hi] guarantees on any array, NaN
    and negative entries included: the reported bin lies in the band, the
    peak is not negative, it is 0 or the entry at the reported bin, and no
    entry of the band is greater. *)
Definition peak_sound (mag : list float) (lo hi : Z) (p : float) (kp : Z) : Prop :=
  lo <= kp <= hi /\
  fleb fzero p = true /\
  (p = fzero \/ mag_at mag kp = Some p) /\
  (forall k m, lo <= k <= hi -> mag_at mag k = Some m -> fgtb m p = false).

(** The state of a peak loop that started at bin [lo] and is about to read
    bin [k], on any array. *)
Definition scanned_any (mag : list float) (lo k : Z) (pk : float * Z) : Prop :=
  fleb fzero (fst pk) = true /\
  lo <= snd pk /\
  (forall j m, lo <= j < k -> mag_at mag j = Some m -> fgtb m (fst pk) = false) /\
  ((fst pk = fzero /\ snd pk = lo) \/ (snd pk < k /\ mag_at mag (snd pk) = Some (fst pk))).

(** The LED states the program can be in: the power LED off, each PWM
    period at its boot value or at the blink period of its condition, and a
    nonzero duty cycle only together with that blink period. *)
Definition leds_wf (l : leds) : Prop :=
  led_power l = false /\
  (tremor_period_ms l = 1 \/ tremor_period_ms l = 500) /\
  (dyskinesia_period_ms l = 1 \/ dyskinesia_period_ms l = 200) /\
  (tremor_duty l = fzero \/ tremor_period_ms l = 500) /\
  (dyskinesia_duty l = fzero \/ dyskinesia_period_ms l = 200).

(** One pass of the main loop: acquisition and zero padding, the six
    calls of [analyze], the decision step. [transform_mag] is the CMSIS
    transform followed by the magnitude; the result is the step result and
    the ticks left for the next window, [None] when the ticks run out
    during acquisition or a read leaves the magnitude array. *)
Definition main_window (transform_mag : list float -> list float) (b : bins) (sw : Z)
    (g : globals) (l : leds) (bufs : buffers) (ts : list tick)
  : option (step_result * list tick) :=
  match acquire ts g bufs with
  | None => None
  | Some (bufs', rest) =>
      match analyze_window transform_mag b bufs' with
      | None => None
      | Some w => Some (window_step sw g l w, rest)
      end
  end.

(** ** Sensor address detection *)

Definition WHO_AM_I_ID : Z := 106.

(** [for (int addr : {0x6A, 0x6B}) { LSM_ADDR = addr << 1; if (r8(WHO_AM_I)
    == 0x6A) { logf(...); break; } }]: [who a] is the byte [r8(WHO_AM_I)]
    returns while [LSM_ADDR] is [a]; the result is the final [LSM_ADDR] and
    the address reported by [logf], if any. *)
Fixpoint detect_from (who : Z -> byte) (addrs : list Z) (lsm_addr : Z)
  : Z * option Z :=
  match addrs with
  | [] => (lsm_addr, None)
  | addr :: rest =>
      let lsm_addr' := Z.shiftl addr 1 in
      if u8 (who lsm_addr') =? WHO_AM_I_ID then (lsm_addr', Some addr)
      else detect_from who rest lsm_addr'
  end.

Definition detect (who : Z -> byte) : Z * option Z :=
  detect_from who [106; 107] 0.

(** ** The blinking feedback of the variant without calibration

    The second program of [src/unnamed/part_000] ([WIN_S = 3],
    [FFTN = 512], one LED) ends each window with a loop of [N] due-signals
    that is meant to blink the LED. *)

Module Blink.

Definition Fs : Z := 104.
Definition WIN_S : Z := 3.
Definition N : Z := Fs * WIN_S.

(** [int half_period = Fs / (2 * freq)]. *)
Definition half_period_of (freq : Z) : Z := Fs / (2 * freq).

(** The body of the loop for one due-signal: the value written to the LED
    and the counter afterwards. *)
Definition blink_tick (half_period : Z) (duty : float) (cnt : Z) : float * Z :=
  let out := if cnt <? half_period then duty else fzero in
  let cnt1 := wrap32 (cnt + 1) in
  (out, if half_period <=? cnt1 then 0 else cnt1).

(** [n] due-signals of the loop, from counter value [cnt]: the writes. *)
Fixpoint blink_loop (n : nat) (half_period : Z) (duty : float) (cnt : Z) : list float :=
  match n with
  | O => []
  | S n' =>
      let '(out, cnt') := blink_tick half_period duty cnt in
      out :: blink_loop n' half_period duty cnt'
  end.

(** The LED feedback block: the writes to the LED for one window. *)
Definition feedback (w : decision) : list float :=
  match tie_break w with
  | WinDyskinesia => blink_loop (Z.to_nat N) (half_period_of 5) (levelD w) 0
  | WinTremor => blink_loop (Z.to_nat N) (half_period_of 2) (levelT w) 0
  | WinNone => [fzero]
  end.

End Blink.

(** ** The physical-unit sample of the sensor interface *)

(** The physical-unit sample of channel [c] on a tick whose two reads
    returned the frames [p], as the sensor interface has it: the two
    register bytes taken as a signed 16-bit little-endian reading, times
    the LSB scale of the sensor. It is independent of the calibration loop
    (and is what the acquisition loop computes before it subtracts the
    baseline). *)
Definition spec_phys_sample (c : channel) (p : frame * frame) : float :=
  match c with
  | AX => fmul (of_int (to_int16 (assemble (d0 (fst p)) (d1 (fst p))))) ACC_LSB
  | AY => fmul (of_int (to_int16 (assemble (d2 (fst p)) (d3 (fst p))))) ACC_LSB
  | AZ => fmul (of_int (to_int16 (assemble (d4 (fst p)) (d5 (fst p))))) ACC_LSB
  | GX => fmul (of_int (to_int16 (assemble (d0 (snd p)) (d1 (snd p))))) GYR_LSB
  | GY => fmul (of_int (to_int16 (assemble (d2 (snd p)) (d3 (snd p))))) GYR_LSB
  | GZ => fmul (of_int (to_int16 (assemble (d4 (snd p)) (d5 (snd p))))) GYR_LSB
  end.

(** The arithmetic mean of [n] values as binary32 computes it: the values
    added left to right from 0, the sum divided by [n]. *)
Definition mean (xs : list float) (n : Z) : float :=
  fdiv (fold_left fadd xs fzero) (of_int n).

(** No reading of the frame, of the pair of frames, has the high bit of its
    upper byte set (no reading is negative). *)
Definition frame_high_bits_clear (f : frame) : bool :=
  (u8 (d1 f) <? 128) && (u8 (d3 f) <? 128) && (u8 (d5 f) <? 128).

Definition high_bits_clear (p : frame * frame) : bool :=
  frame_high_bits_clear (fst p) && frame_high_bits_clear (snd p).

(** * Properties *)

(** ** The literals of the configuration *)

(** The binary32 values of the decimal literals, mantissa and exponent:
    [0.10f] is [13421773 * 2^-27], [0.000061f] is [16767552 * 2^-38], and
    [0.10f * 0.5f] is exactly [0.05f]. *)
Example config_literals :
  ACC_T_TH = S754_finite false 13421773 (-27) /\
  GYR_T_TH = S754_finite false 10485760 (-20) /\
  PEAK_TO_RMS = S754_finite false 12582912 (-23) /\
  RMS_FLOOR = S754_finite false 8388608 (-24) /\
  ACC_LSB = S754_finite false 16767552 (-38) /\
  GYR_LSB = S754_finite false 9395241 (-30) /\
  GYR_SCALE = S754_finite false 13107200 (-17) /\
  fmul ACC_T_TH RMS_FLOOR = lit 5 100 /\
  CALIBRATION_WINDOWS * N = 520.
Proof. vm_compute. repeat split; reflexivity. Qed.

(** ** The order of binary32 values *)

Ltac cmp_cases :=
  repeat match goal with
  | |- context [Z.compare ?a ?b] => destruct (Z.compare_spec a b)
  | H : context [Z.compare ?a ?b] |- _ => destruct (Z.compare_spec a b)
  | |- context [Pos.compare_cont Eq ?a ?b] =>
      change (Pos.compare_cont Eq a b) with (Pos.compare a b);
      destruct (Pos.compare_spec a b)
  | H : context [Pos.compare_cont Eq ?a ?b] |- _ =>
      change (Pos.compare_cont Eq a b) with (Pos.compare a b) in H;
      destruct (Pos.compare_spec a b)
  end.

Ltac float_order :=
  unfold fltb, fleb, fgtb, fgeb, feqb, SFltb, SFleb, SFeqb, is_nan;
  intros;
  repeat match goal with x : float |- _ => destruct x end;
  repeat match goal with s : bool |- _ => destruct s end;
  simpl in *; try discriminate; try reflexivity;
  cmp_cases; subst; simpl in *; try discriminate; try reflexivity; try lia.

Lemma fleb_refl x : is_nan x = false -> fleb x x = true.
Proof. float_order. Qed.

Lemma fleb_total m p :
  is_nan m = false -> is_nan p = false -> fltb p m = false -> fleb m p = true.
Proof. float_order. Qed.

Lemma fltb_fleb x m : fltb x m = true -> fleb x m = true.
Proof. float_order. Qed.

Lemma fleb_antisym a b : fleb a b = true -> fleb b a = true -> feqb a b = true.
Proof. float_order. Qed.

Lemma fleb_fltb_trans x p m : fleb x p = true -> fltb p m = true -> fltb x m = true.
Proof. float_order. Qed.

Lemma fleb_not_nan x y : fleb x y = true -> is_nan y = false.
Proof. float_order. Qed.




(** A rounded product or quotient of non-negative operands is never below 0. *)
Lemma round_nonneg_not_below_zero m e l s :
  SFltb (binary_round_aux prec emax false m e l) (S754_zero s) = false.
Proof.
  unfold binary_round_aux.
  destruct (shr_fexp prec emax m e l) as [mrs e'].
  destruct (shr_fexp prec emax _ e' loc_Exact) as [mrs' e''].
  destruct (shr_m mrs'); [reflexivity| |reflexivity].
  destruct (e'' <=? emax - prec); reflexivity.
Qed.

(** ** Integer helpers *)

Lemma wrap32_small z : - 2 ^ 31 <= z < 2 ^ 31 -> wrap32 z = z.
Proof.
  intros H. unfold wrap32. rewrite Z.mod_small; lia.
Qed.

Lemma u8_range b : 0 <= u8 b < 256.
Proof.
  unfold u8. pose proof (Byte.to_N_bounded b). lia.
Qed.

Lemma all_from_spec p n : forall k,
  all_from n k p = true -> forall j, k <= j < k + Z.of_nat n -> p j = true.
Proof.
  induction n as [|n IH]; intros k H j Hj; [lia|].
  cbn [all_from] in H. apply andb_true_iff in H as [Hk Hrest].
  destruct (Z.eq_dec j k) as [->|Hne]; [exact Hk|].
  apply (IH (k + 1)); [exact Hrest|lia].
Qed.

(** ** Loops over the magnitude array *)

Lemma mag_at_some mag k :
  0 <= k < Z.of_nat (length mag) -> exists m, mag_at mag k = Some m /\ In m mag.
Proof.
  intros Hk. unfold mag_at.
  destruct (k <? 0) eqn:E; [apply Z.ltb_lt in E; lia|].
  destruct (nth_error mag (Z.to_nat k)) as [m|] eqn:En.
  - exists m. split; [reflexivity|]. eapply nth_error_In; eauto.
  - apply nth_error_None in En. lia.
Qed.

Lemma mag_at_none mag k :
  Z.of_nat (length mag) <= k -> mag_at mag k = None.
Proof.
  intros Hk. unfold mag_at.
  destruct (k <? 0) eqn:E; [reflexivity|].
  apply nth_error_None. lia.
Qed.

Lemma skipn_nth_error {A} (l : list A) n x :
  nth_error l n = Some x -> skipn n l = x :: skipn (S n) l.
Proof.
  revert l. induction n as [|n IH]; intros [|y l] H; simpl in *; try discriminate.
  - now inversion H.
  - now apply IH.
Qed.

Lemma rms_loop mag n : forall k acc,
  0 <= k -> k + Z.of_nat n <= Z.of_nat (length mag) ->
  for_range n k (rms_body mag) acc =
  Some (fold_left (fun a m => fadd a (fmul m m)) (firstn n (skipn (Z.to_nat k) mag)) acc).
Proof.
  induction n as [|n IH]; intros k acc Hk Hn; [reflexivity|].
  cbn [for_range]. unfold rms_body at 1.
  destruct (mag_at_some mag k) as [m [Hm _]]; [lia|]. rewrite Hm.
  rewrite IH by lia.
  unfold mag_at in Hm. destruct (k <? 0); [discriminate|].
  rewrite (skipn_nth_error _ _ _ Hm). cbn [firstn fold_left].
  replace (Z.to_nat (k + 1)) with (S (Z.to_nat k)) by lia. reflexivity.
Qed.

Section Scan.

Variable mag : list float.
Hypothesis mag_nonneg : forall m, In m mag -> fleb fzero m = true.
Variable lo : Z.

Lemma scanned_start : scanned mag lo lo (fzero, lo).
Proof.
  unfold scanned; cbn [fst snd].
  repeat split; try reflexivity; try lia; intros; try lia. now left.
Qed.

Lemma peak_loop n : forall k pk,
  0 <= lo <= k -> k + Z.of_nat n <= Z.of_nat (length mag) ->
  scanned mag lo k pk ->
  exists pk', for_range n k (peak_body mag) pk = Some pk' /\
              scanned mag lo (k + Z.of_nat n) pk'.
Proof.
  induction n as [|n IH]; intros k [p kp] Hk Hn Inv.
  - exists (p, kp). split; [reflexivity|]. now replace (k + Z.of_nat 0) with k by lia.
  - cbn [for_range]. unfold peak_body at 1.
    destruct (mag_at_some mag k) as [m [Hm Hin]]; [lia|]. rewrite Hm. cbn [fst].
    replace (k + Z.of_nat (S n)) with ((k + 1) + Z.of_nat n) by lia.
    unfold scanned in Inv; cbn [fst snd] in Inv.
    destruct Inv as (Hp & Hkp & Hmax & Hfirst & Hat).
    pose proof (mag_nonneg m Hin) as Hm0.
    destruct (fgtb m p) eqn:Hgt; apply IH; try lia;
      unfold scanned; cbn [fst snd]; unfold fgtb in Hgt.
    + repeat split; try assumption; try lia.
      * intros j mj Hj Hmj. destruct (Z.eq_dec j k) as [->|Hne].
        -- rewrite Hm in Hmj. inversion Hmj; subst.
           apply fleb_refl. eapply fleb_not_nan; eauto.
        -- apply fltb_fleb. eapply fleb_fltb_trans; [|exact Hgt].
           eapply Hmax; [|exact Hmj]. lia.
      * intros j mj Hj Hmj. eapply fleb_fltb_trans; [|exact Hgt].
        eapply Hmax; [|exact Hmj]. lia.
      * right. split; [lia|assumption].
    + repeat split; try assumption.
      * intros j mj Hj Hmj. destruct (Z.eq_dec j k) as [->|Hne].
        -- rewrite Hm in Hmj. inversion Hmj; subst.
           apply fleb_total; try assumption; eapply fleb_not_nan; eauto.
        -- eapply Hmax; [|exact Hmj]. lia.
      * destruct Hat as [[-> ->]|[Hlt Hat]]; [now left|right; split; [lia|assumption]].
Qed.

Lemma peak_scan hi :
  0 <= lo <= hi -> hi < Z.of_nat (length mag) ->
  exists p kp, for_le lo hi (peak_body mag) (fzero, lo) = Some (p, kp) /\
               first_max mag lo hi p kp.
Proof.
  intros Hlo Hhi. unfold for_le.
  destruct (peak_loop (Z.to_nat (hi + 1 - lo)) lo (fzero, lo)) as [[p kp] [Hrun Inv]];
    try lia; [apply scanned_start|].
  exists p, kp. split; [exact Hrun|].
  replace (lo + Z.of_nat (Z.to_nat (hi + 1 - lo))) with (hi + 1) in Inv by lia.
  unfold scanned in Inv; cbn [fst snd] in Inv.
  destruct Inv as (Hp & Hkp & Hmax & Hfirst & Hat).
  assert (Hle : kp <= hi) by (destruct Hat as [[_ ->]|[? _]]; lia).
  repeat split; try assumption.
  - destruct Hat as [[-> ->]|[_ Hat]].
    + destruct (mag_at_some mag lo) as [m [Hm Hin]]; [lia|].
      exists m. split; [assumption|]. apply fleb_antisym.
      * eapply Hmax; [|exact Hm]. lia.
      * now apply mag_nonneg.
    + exists p. split; [assumption|]. apply fleb_antisym; apply fleb_refl;
        eapply fleb_not_nan; eauto.
  - intros k m Hk. apply Hmax. lia.
Qed.

End Scan.

(** C7. For a magnitude array of [FFTN / 2] non-negative entries and bin
    indices [0 <= i3 <= i5 <= i7] with [i7 + 2] inside the array, the
    analyzer returns a result whose [rms] is the square root of the sum of
    the squared magnitudes of bins 1 to [i7 + 2] (bin 0 left out) divided by
    [i7 + 2], whose [peak_3_5] is the maximum over bins [i3..i5] and whose
    [peak_5_7] is the maximum over bins [i5..i7], each reported at the first
    bin, in ascending order, that holds the maximum. *)
Theorem spectral_rms_and_peaks (b : bins) (mag : list float) :
  Z.of_nat (length mag) = FFTN / 2 ->
  0 <= i3 b <= i5 b -> i5 b <= i7 b -> i7 b + 2 < FFTN / 2 ->
  (forall m, In m mag -> fleb fzero m = true) ->
  exists r,
    spectral b mag = Some r /\
    rms r = fsqrt (fdiv (sum_sq (firstn (Z.to_nat (i7 b + 2)) (skipn 1 mag)))
                        (of_int (i7 b + 2))) /\
    first_max mag (i3 b) (i5 b) (peak_3_5 r) (peak_3_5_bin r) /\
    first_max mag (i5 b) (i7 b) (peak_5_7 r) (peak_5_7_bin r).
Proof.
  intros Hlen H35 H57 H7 Hpos.
  change (FFTN / 2) with 128 in *.
  unfold spectral, for_lt.
  rewrite !wrap32_small by (change (2 ^ 31) with 2147483648; lia).
  rewrite rms_loop by lia.
  destruct (peak_scan mag Hpos (i3 b) (i5 b)) as (p35 & k35 & Hrun35 & Hmax35); try lia.
  destruct (peak_scan mag Hpos (i5 b) (i7 b)) as (p57 & k57 & Hrun57 & Hmax57); try lia.
  rewrite Hrun35, Hrun57.
  eexists. split; [reflexivity|]. cbn [rms peak_3_5 peak_3_5_bin peak_5_7 peak_5_7_bin].
  replace (Z.to_nat (i7 b + 3 - 1)) with (Z.to_nat (i7 b + 2)) by lia.
  repeat split; try apply Hmax35; try apply Hmax57.
Qed.

Lemma spectral_rms_and_peaks_witness :
  exists r,
    spectral (mkBins 7 12 17) (repeat fzero 10 ++ fone :: repeat fzero 117) = Some r /\
    rms r = fsqrt (fdiv (sum_sq (firstn (Z.to_nat (i7 (mkBins 7 12 17) + 2))
                                        (skipn 1 (repeat fzero 10 ++ fone :: repeat fzero 117))))
                        (of_int (i7 (mkBins 7 12 17) + 2))) /\
    first_max (repeat fzero 10 ++ fone :: repeat fzero 117) 7 12 (peak_3_5 r) (peak_3_5_bin r) /\
    first_max (repeat fzero 10 ++ fone :: repeat fzero 117) 12 17 (peak_5_7 r) (peak_5_7_bin r).
Proof.
  apply (spectral_rms_and_peaks (mkBins 7 12 17)
           (repeat fzero 10 ++ fone :: repeat fzero 117)).
  - reflexivity.
  - cbn; lia.
  - cbn; lia.
  - vm_compute; reflexivity.
  - apply forallb_forall. vm_compute; reflexivity.
Defined.

(** The tone of the witness is found where it is: bin 10, magnitude 1. *)
Example spectral_tone_at_bin_10 :
  spectral (mkBins 7 12 17) (repeat fzero 10 ++ fone :: repeat fzero 117)
  = Some (mkSpectral (fsqrt (fdiv fone (of_int 19))) fone 10 fzero 12).
Proof. vm_compute. reflexivity. Qed.

(** Equal maxima: the first bin is reported. *)
Example spectral_tie_first_bin :
  spectral (mkBins 7 12 17) (repeat fzero 8 ++ fone :: fone :: repeat fzero 118)
  = Some (mkSpectral (fsqrt (fdiv (fadd fone fone) (of_int 19))) fone 8 fzero 12).
Proof. vm_compute. reflexivity. Qed.

(** ** Array accesses of the analyzer *)

Lemma for_range_total {A} (body : Z -> A -> option A) n : forall k a,
  (forall j x, k <= j < k + Z.of_nat n -> exists y, body j x = Some y) ->
  exists r, for_range n k body a = Some r.
Proof.
  induction n as [|n IH]; intros k a H; [now exists a|].
  cbn [for_range]. destruct (H k a) as [y Hy]; [lia|]. rewrite Hy.
  apply IH. intros j x Hj. apply H. lia.
Qed.

Lemma rms_body_in_range mag k acc :
  0 <= k < Z.of_nat (length mag) -> exists y, rms_body mag k acc = Some y.
Proof.
  intros Hk. unfold rms_body. destruct (mag_at_some mag k Hk) as [m [-> _]]. eauto.
Qed.

Lemma peak_body_in_range mag k pk :
  0 <= k < Z.of_nat (length mag) -> exists y, peak_body mag k pk = Some y.
Proof.
  intros Hk. unfold peak_body. destruct (mag_at_some mag k Hk) as [m [-> _]]. eauto.
Qed.

(** C10. With [Fs = 104] and [FFTN = 256] the startup bin indices are 7, 12
    and 17; every bin read by the RMS loop (1 to [i7 + 2]) and by the two
    peak loops ([i3] to [i7]) lies in [0, FFTN / 2), and on every magnitude
    array of [FFTN / 2] entries the analyzer runs to its result without a
    read outside the array. *)
Theorem startup_bins_in_range :
  startup_bins = Some (mkBins 7 12 17) /\
  (forall k, 1 <= k <= 17 + 2 \/ 7 <= k <= 17 -> 0 <= k < FFTN / 2) /\
  (forall mag, Z.of_nat (length mag) = FFTN / 2 ->
               exists r, spectral (mkBins 7 12 17) mag = Some r).
Proof.
  split; [vm_compute; reflexivity|]. split.
  - intros k Hk. change (FFTN / 2) with 128. lia.
  - intros mag Hlen. change (FFTN / 2) with 128 in Hlen.
    unfold spectral, for_lt, for_le. cbn [i3 i5 i7].
    change (wrap32 (17 + 3)) with 20. change (wrap32 (17 + 2)) with 19.
    destruct (for_range_total (rms_body mag) (Z.to_nat (20 - 1)) 1 fzero) as [s ->].
    { intros j x Hj. apply rms_body_in_range. lia. }
    destruct (for_range_total (peak_body mag) (Z.to_nat (12 + 1 - 7)) 7 (fzero, 7))
      as [[p35 k35] ->].
    { intros j x Hj. apply peak_body_in_range. lia. }
    destruct (for_range_total (peak_body mag) (Z.to_nat (17 + 1 - 12)) 12 (fzero, 12))
      as [[p57 k57] ->].
    { intros j x Hj. apply peak_body_in_range. lia. }
    eauto.
Qed.

Lemma startup_bins_in_range_witness :
  startup_bins = Some (mkBins 7 12 17) /\
  0 <= 19 < FFTN / 2 /\
  exists r, spectral (mkBins 7 12 17) (repeat fone 128) = Some r.
Proof.
  split; [exact (proj1 startup_bins_in_range)|]. split.
  - apply (proj1 (proj2 startup_bins_in_range) 19). left. lia.
  - apply (proj2 (proj2 startup_bins_in_range) (repeat fone 128)). reflexivity.
Defined.

(** A read past the end is what the model reports as [None]: with one entry
    fewer than bin [i7 + 2] needs, the RMS loop leaves the array. *)
Example spectral_short_array :
  spectral (mkBins 7 12 17) (repeat fzero 19) = None.
Proof. vm_compute. reflexivity. Qed.

(** ** The zero-RMS case and the all-zero window *)

(** With [rms = 0] (either sign) and a threshold that is not negative, the
    floor comparison [rms > th * 0.5f] is false, whatever the quotient
    [p / rms] evaluated to (an infinity or a NaN, never a fault). *)
Lemma zero_rms_guard p th s :
  fleb fzero th = true -> band_test p (S754_zero s) th = false.
Proof.
  intros Hth. unfold band_test.
  assert (Hfloor : fgtb (S754_zero s) (fmul th RMS_FLOOR) = false).
  { unfold fgtb, fltb.
    destruct th as [s'|s'| |s' m e]; try destruct s'; try discriminate Hth;
      try (destruct s; reflexivity).
    unfold fmul, RMS_FLOOR, SFmul. cbn [xorb].
    apply round_nonneg_not_below_zero. }
  rewrite Hfloor. apply andb_false_r.
Qed.

Lemma thresholds_nonneg c : fleb fzero (tth_of c) = true /\ fleb fzero (dth_of c) = true.
Proof. destruct c; split; reflexivity. Qed.

Section ZeroWindow.

Variable transform_mag : list float -> list float.

(** The transform of the all-zero buffer is the all-zero magnitude array. *)
Hypothesis transform_zero :
  transform_mag zero_buffer = repeat fzero (Z.to_nat (FFTN / 2)).

(** C8. For a window whose samples are all zero, every channel's spectral
    result has [rms = 0] and both peaks 0, neither band test passes on any
    channel, and the window decision has no flag and levels 0; with
    [rms = 0] the band test fails for every peak value and every channel
    threshold, the quotient by zero raising no fault. *)
Theorem zero_window_no_detection :
  spectral (mkBins 7 12 17) (transform_mag zero_buffer)
    = Some (zero_result (mkBins 7 12 17)) /\
  (forall c, silent c (zero_result (mkBins 7 12 17))) /\
  analyze_window transform_mag (mkBins 7 12 17) zero_buffers = Some no_decision /\
  (forall c p s, band_test p (S754_zero s) (tth_of c) = false /\
                 band_test p (S754_zero s) (dth_of c) = false).
Proof.
  assert (Hs : spectral (mkBins 7 12 17) (transform_mag zero_buffer)
               = Some (zero_result (mkBins 7 12 17))).
  { rewrite transform_zero. vm_compute. reflexivity. }
  split; [exact Hs|]. split; [|split].
  - intros c. unfold silent, zero_result. cbn [rms peak_3_5 peak_5_7].
    split; apply zero_rms_guard; apply thresholds_nonneg.
  - unfold analyze_window, channels, analyze_channels, analyze.
    cbn [buffer_of zero_buffers ax ay az gx gy gz].
    rewrite !Hs. vm_compute. reflexivity.
  - intros c p s. split; apply zero_rms_guard; apply thresholds_nonneg.
Qed.

End ZeroWindow.

Lemma zero_window_no_detection_witness :
  spectral (mkBins 7 12 17)
           ((fun d => map (fun x => fsqrt (fmul x x)) (firstn 128 d)) zero_buffer)
    = Some (zero_result (mkBins 7 12 17)) /\
  (forall c, silent c (zero_result (mkBins 7 12 17))) /\
  analyze_window (fun d => map (fun x => fsqrt (fmul x x)) (firstn 128 d))
                 (mkBins 7 12 17) zero_buffers = Some no_decision /\
  (forall c p s, band_test p (S754_zero s) (tth_of c) = false /\
                 band_test p (S754_zero s) (dth_of c) = false).
Proof.
  apply (zero_window_no_detection
           (fun d => map (fun x => fsqrt (fmul x x)) (firstn 128 d))).
  vm_compute. reflexivity.
Defined.

(** ** The end-to-end scenario *)

Lemma decide_silent c r a :
  silent c r -> decide (tth_of c) (dth_of c) (scale_of c) r a = a.
Proof.
  intros [Ht Hd]. unfold decide. rewrite Ht, Hd. reflexivity.
Qed.

Lemma decide_window_single c rs :
  (forall c', c' <> c -> silent c' (rs c')) ->
  decide_window rs
  = clamp (decide (tth_of c) (dth_of c) (scale_of c) (rs c) no_decision).
Proof.
  intros Hs. unfold decide_window, channels. cbn [fold_left].
  destruct c;
    repeat match goal with
    | |- context [decide (tth_of ?c') (dth_of ?c') (scale_of ?c') (rs ?c') ?a] =>
        rewrite (decide_silent c' (rs c') a) by (apply Hs; discriminate)
    end; reflexivity.
Qed.

(** C1, as amended. In the configuration of [main.cpp] (thresholds 0.10 and
    10.0, ratio 1.5, floor multiplier 0.5, one stable window), let one
    accelerometer channel have [peak_3_5 = 0.15] with a failing 5-7 Hz test
    and let the other channels be silent. With [rms = 0.05] the tremor test
    fails at its floor, [rms > 0.10 * 0.5] being strict: no flag is set and
    both levels are 0. With [rms = 0.06] the window reports tremor, level
    [0.15 / 0.5 = 0.30], no dyskinesia, and the first such window after
    boot shows tremor with duty cycle 0.30. *)
Theorem tremor_scenario (c : channel) (rs : channel -> spectral_result) :
  is_accel c = true ->
  (forall c', c' <> c -> silent c' (rs c')) ->
  peak_3_5 (rs c) = lit 15 100 ->
  band_test (peak_5_7 (rs c)) (rms (rs c)) (dth_of c) = false ->
  (rms (rs c) = lit 5 100 -> decide_window rs = no_decision) /\
  (rms (rs c) = lit 6 100 ->
   decide_window rs = mkDecision true false (lit 30 100) fzero /\
   show_tremor (window_step STABLE_WINDOWS boot leds_boot (decide_window rs)) = true /\
   show_dyskinesia (window_step STABLE_WINDOWS boot leds_boot (decide_window rs)) = false /\
   tremor_duty (lights (window_step STABLE_WINDOWS boot leds_boot (decide_window rs)))
     = lit 30 100).
Proof.
  intros Hacc Hs Hp Hd.
  rewrite (decide_window_single c rs Hs).
  assert (Hcfg : tth_of c = ACC_T_TH /\ scale_of c = ACC_SCALE)
    by (unfold tth_of, scale_of; rewrite Hacc; split; reflexivity).
  destruct Hcfg as [Htth Hsc].
  unfold decide. rewrite Hd, Hp, Htth, Hsc.
  split; intros Hr; rewrite Hr.
  - vm_compute. reflexivity.
  - vm_compute. repeat split; reflexivity.
Qed.

Lemma tremor_scenario_witness :
  decide_window (scenario_results (lit 6 100))
    = mkDecision true false (lit 30 100) fzero /\
  show_tremor (window_step STABLE_WINDOWS boot leds_boot
                 (decide_window (scenario_results (lit 6 100)))) = true /\
  show_dyskinesia (window_step STABLE_WINDOWS boot leds_boot
                     (decide_window (scenario_results (lit 6 100)))) = false /\
  tremor_duty (lights (window_step STABLE_WINDOWS boot leds_boot
                         (decide_window (scenario_results (lit 6 100)))))
    = lit 30 100.
Proof.
  apply (proj2 (tremor_scenario AX (scenario_results (lit 6 100))
                  eq_refl
                  (fun c' =>
                     match c' return c' <> AX -> silent c' (scenario_results (lit 6 100) c') with
                     | AX => fun H => False_ind _ (H eq_refl)
                     | _ => fun _ => conj eq_refl eq_refl
                     end)
                  eq_refl eq_refl)).
  reflexivity.
Defined.

(** The scenario as the specification has it, [rms = 0.05]: the peak test
    and the ratio test pass, the floor test [0.05 > 0.10 * 0.5] does not,
    and the window reports no tremor. *)
Lemma tremor_scenario_counterexample :
  peak_3_5 (scenario_results (lit 5 100) AX) = lit 15 100 /\
  rms (scenario_results (lit 5 100) AX) = lit 5 100 /\
  band_test (peak_5_7 (scenario_results (lit 5 100) AX))
            (rms (scenario_results (lit 5 100) AX)) (dth_of AX) = false /\
  fgeb (lit 15 100) ACC_T_TH = true /\
  fgtb (fdiv (lit 15 100) (lit 5 100)) PEAK_TO_RMS = true /\
  fgtb (lit 5 100) (fmul ACC_T_TH RMS_FLOOR) = false /\
  trem (decide_window (scenario_results (lit 5 100))) = false /\
  levelT (decide_window (scenario_results (lit 5 100))) <> lit 30 100.
Proof.
  vm_compute. repeat split; try reflexivity. discriminate.
Qed.

(** ** Sample conversion in the two phases *)

Lemma live_raw_high_clear :
  all_from 256 0 (fun x => all_from 128 0 (fun y =>
    to_int16 (Z.lor x (Z.shiftl y 8)) =? Z.lor x (Z.shiftl y 8))) = true.
Proof. vm_compute. reflexivity. Qed.

Lemma live_below_cal_high_set lsb :
  lsb = ACC_LSB \/ lsb = GYR_LSB ->
  all_from 256 0 (fun x => all_from 128 128 (fun y =>
    fltb (fmul (of_int (to_int16 (Z.lor x (Z.shiftl y 8)))) lsb)
         (fmul (of_int (Z.lor x (Z.shiftl y 8))) lsb))) = true.
Proof. intros [-> | ->]; vm_compute; reflexivity. Qed.

(** C3, what the code does. For every pair of register bytes: with the
    high bit of the upper byte clear the calibration loop and the
    acquisition loop convert to the same value; with it set the
    calibration loop, which multiplies the promoted [int] without going
    through [int16_t], yields a strictly greater value (the reading plus
    65536 counts), for the accelerometer and for the gyroscope scale. *)
Theorem calibration_conversion_unsigned (lo hi : byte) :
  (if u8 hi <? 128
   then cal_phys lo hi ACC_LSB = live_phys lo hi ACC_LSB
   else fltb (live_phys lo hi ACC_LSB) (cal_phys lo hi ACC_LSB) = true) /\
  (if u8 hi <? 128
   then cal_phys lo hi GYR_LSB = live_phys lo hi GYR_LSB
   else fltb (live_phys lo hi GYR_LSB) (cal_phys lo hi GYR_LSB) = true).
Proof.
  pose proof (u8_range lo) as Hlo. pose proof (u8_range hi) as Hhi.
  unfold cal_phys, live_phys, live_raw, assemble.
  destruct (u8 hi <? 128) eqn:E.
  - apply Z.ltb_lt in E.
    pose proof (all_from_spec _ _ _ live_raw_high_clear (u8 lo) ltac:(lia)) as H1.
    cbv beta in H1.
    pose proof (all_from_spec _ _ _ H1 (u8 hi) ltac:(lia)) as H2.
    cbv beta in H2. apply Z.eqb_eq in H2. rewrite H2. split; reflexivity.
  - apply Z.ltb_ge in E. split.
    + pose proof (all_from_spec _ _ _ (live_below_cal_high_set ACC_LSB (or_introl eq_refl))
                    (u8 lo) ltac:(lia)) as H1.
      cbv beta in H1. exact (all_from_spec _ _ _ H1 (u8 hi) ltac:(lia)).
    + pose proof (all_from_spec _ _ _ (live_below_cal_high_set GYR_LSB (or_intror eq_refl))
                    (u8 lo) ltac:(lia)) as H1.
      cbv beta in H1. exact (all_from_spec _ _ _ H1 (u8 hi) ltac:(lia)).
Qed.

(** The reading -1 (bytes FF FF): about -0.000061 g in the acquisition
    loop, about 3.9976 g in the calibration loop. *)
Example raw_minus_one_conversions :
  live_raw xff xff = -1 /\
  assemble xff xff = 65535 /\
  live_phys xff xff ACC_LSB = S754_finite true 16767552 (-38) /\
  cal_phys xff xff ACC_LSB = S754_finite false 16767296 (-22).
Proof. vm_compute. repeat split; reflexivity. Qed.

(** ** Failed reads *)

(** Acquisition: a tick with a failed read leaves the buffers and the window
    index as they were. *)
Lemma acq_tick_read_failure g b idx t :
  acc_read t = None \/ gyr_read t = None -> acq_tick g b idx t = (b, idx).
Proof.
  intros [H | H]; unfold acq_tick; rewrite H; [reflexivity|].
  destruct (acc_read t); reflexivity.
Qed.

(** The same sample slot is filled by the next due-signal. *)
Lemma acq_window_retry g b idx t ts :
  idx < N ->
  acc_read t = None \/ gyr_read t = None ->
  acq_window (t :: ts) g b idx = acq_window ts g b idx.
Proof.
  intros Hidx H. cbn [acq_window].
  rewrite (acq_tick_read_failure g b idx t H).
  apply Z.ltb_lt in Hidx. rewrite Hidx. reflexivity.
Qed.

(** Calibration: the window index does not advance on a failed read. *)
Lemma cal_tick_read_failure_idx g idx t :
  acc_read t = None \/ gyr_read t = None -> snd (cal_tick g idx t) = idx.
Proof.
  intros [H | H]; unfold cal_tick; rewrite H; [reflexivity|].
  destruct (acc_read t); reflexivity.
Qed.

(** Calibration: a failed accelerometer read commits nothing. *)
Lemma cal_tick_acc_failure g idx t :
  acc_read t = None -> cal_tick g idx t = (g, idx).
Proof. intros H. unfold cal_tick. now rewrite H. Qed.

(** Calibration: when the accelerometer read succeeds and the gyroscope read
    fails, the accelerometer sums have already been updated. *)
Lemma cal_tick_gyr_failure g idx t a :
  acc_read t = Some a -> gyr_read t = None ->
  cal_tick g idx t = (set_baseline_acc g (accumulate (baseline_acc g) a ACC_LSB), idx).
Proof. intros Ha Hg. unfold cal_tick. now rewrite Ha, Hg. Qed.

(** C2, what the code does at the failing input. A calibration tick whose
    accelerometer read returns the reading 1 on every axis and whose
    gyroscope read fails: the window index stays 0 and the gyroscope sums
    stay 0, but the three accelerometer sums have taken the reading
    (0.000061 each), and the tick that retries the slot adds its own
    reading on top. *)
Theorem calibration_commits_before_gyro_read :
  snd (cal_tick boot 0 (mkTick (Some (frame_of x01 x00)) None)) = 0 /\
  baseline_gyr (fst (cal_tick boot 0 (mkTick (Some (frame_of x01 x00)) None))) = vzero /\
  baseline_acc (fst (cal_tick boot 0 (mkTick (Some (frame_of x01 x00)) None)))
    = mkVec3 ACC_LSB ACC_LSB ACC_LSB /\
  baseline_acc (fst (cal_tick boot 0 (mkTick (Some (frame_of x01 x00)) None)))
    <> baseline_acc boot /\
  baseline_acc
    (fst (cal_tick (fst (cal_tick boot 0 (mkTick (Some (frame_of x01 x00)) None))) 0
                   (ok_tick (frame_of x01 x00, frame_of x00 x00))))
    = mkVec3 (fadd ACC_LSB ACC_LSB) (fadd ACC_LSB ACC_LSB) (fadd ACC_LSB ACC_LSB).
Proof.
  vm_compute. repeat split; try reflexivity. discriminate.
Qed.

(** ** Calibration estimator *)

Lemma cal_tick_ok g idx p : cal_tick g idx (ok_tick p) = (add_pair g p, idx + 1).
Proof. reflexivity. Qed.

Lemma cal_window_ok ps : forall rest g idx,
  0 <= idx -> idx + Z.of_nat (length ps) = N ->
  cal_window (map ok_tick ps ++ rest) g idx = Some (fold_left add_pair ps g, rest).
Proof.
  induction ps as [|p ps IH]; intros rest g idx H0 Hlen; cbn [length] in Hlen.
  - cbn [map app fold_left].
    assert (E : (idx <? N) = false) by (apply Z.ltb_ge; lia).
    destruct rest; cbn [cal_window]; rewrite E; reflexivity.
  - cbn [map app fold_left cal_window].
    assert (E : (idx <? N) = true) by (apply Z.ltb_lt; lia).
    rewrite E, cal_tick_ok. apply IH; lia.
Qed.

Lemma cal_windows_ok n : forall ps rest g,
  Z.of_nat (length ps) = Z.of_nat n * N ->
  cal_windows n (map ok_tick ps ++ rest) g = Some (fold_left add_pair ps g, rest).
Proof.
  induction n as [|n IH]; intros ps rest g Hlen.
  - destruct ps; [reflexivity|cbn [length] in Hlen; lia].
  - cbn [cal_windows].
    assert (HN : 0 <= N) by (vm_compute; discriminate).
    rewrite <- (firstn_skipn (Z.to_nat N) ps) at 1.
    rewrite map_app, <- app_assoc.
    rewrite (cal_window_ok (firstn (Z.to_nat N) ps)); [|lia|].
    + rewrite IH.
      * rewrite <- fold_left_app, firstn_skipn. reflexivity.
      * rewrite length_skipn. lia.
    + rewrite length_firstn. lia.
Qed.

Lemma fold_add_pair_baseline ps : forall g c,
  baseline_of (fold_left add_pair ps g) c
  = fold_left fadd (map (cal_sample c) ps) (baseline_of g c).
Proof.
  induction ps as [|p ps IH]; intros g c; [reflexivity|].
  cbn [fold_left map]. rewrite IH. destruct c; reflexivity.
Qed.

Lemma fold_add_pair_counters ps : forall g,
  stable_tremor (fold_left add_pair ps g) = stable_tremor g /\
  stable_dyskinesia (fold_left add_pair ps g) = stable_dyskinesia g.
Proof.
  induction ps as [|p ps IH]; intros g; [split; reflexivity|].
  cbn [fold_left]. destruct (IH (add_pair g p)) as [-> ->]. split; reflexivity.
Qed.

Lemma baseline_of_finish g c :
  baseline_of (cal_finish g) c
  = fdiv (baseline_of g c) (of_int (CALIBRATION_WINDOWS * N)).
Proof. destruct c; reflexivity. Qed.

(** With every read of the calibration phase succeeding, calibration
    completes on the first [CALIBRATION_WINDOWS * N] ticks, leaves the later
    ticks and the stability counters untouched, sets [is_calibrated], and
    each baseline is the sum of the values the loop itself converted
    ([cal_sample], the unsigned conversion) divided by
    [CALIBRATION_WINDOWS * N]. *)
Lemma calibrate_all_reads_ok (ps : list (frame * frame)) (rest : list tick) :
  Z.of_nat (length ps) = CALIBRATION_WINDOWS * N ->
  exists g,
    calibrate (map ok_tick ps ++ rest) boot = Some (g, rest) /\
    is_calibrated g = true /\
    stable_tremor g = 0 /\ stable_dyskinesia g = 0 /\
    forall c,
      baseline_of g c
      = fdiv (fold_left fadd (map (cal_sample c) ps) fzero)
             (of_int (CALIBRATION_WINDOWS * N)).
Proof.
  intros Hlen. unfold calibrate.
  rewrite (cal_windows_ok (Z.to_nat CALIBRATION_WINDOWS) ps rest boot)
    by (rewrite Hlen; reflexivity).
  eexists. split; [reflexivity|].
  destruct (fold_add_pair_counters ps boot) as [Ht Hd].
  repeat split; cbn [cal_finish is_calibrated stable_tremor stable_dyskinesia];
    try assumption.
  intros c. rewrite baseline_of_finish, fold_add_pair_baseline.
  destruct c; reflexivity.
Qed.

Lemma cal_phys_high_bit_clear lo hi lsb :
  (u8 hi <? 128) = true ->
  cal_phys lo hi lsb = fmul (of_int (to_int16 (assemble lo hi))) lsb.
Proof.
  intros E. apply Z.ltb_lt in E.
  pose proof (u8_range lo) as Hlo. pose proof (u8_range hi) as Hhi.
  pose proof (all_from_spec _ _ _ live_raw_high_clear (u8 lo) ltac:(lia)) as H1.
  cbv beta in H1.
  pose proof (all_from_spec _ _ _ H1 (u8 hi) ltac:(lia)) as H2.
  cbv beta in H2. apply Z.eqb_eq in H2.
  unfold cal_phys, assemble. rewrite H2. reflexivity.
Qed.

Lemma cal_sample_high_bits_clear c p :
  high_bits_clear p = true -> cal_sample c p = spec_phys_sample c p.
Proof.
  unfold high_bits_clear, frame_high_bits_clear. intros H.
  rewrite !andb_true_iff in H.
  destruct H as [[[H1 H2] H3] [[H4 H5] H6]].
  destruct c; cbn [cal_sample spec_phys_sample];
    apply cal_phys_high_bit_clear; assumption.
Qed.

(** Where the claim of the mean does hold. With every read succeeding and
    no reading negative, each baseline is the mean of the
    [CALIBRATION_WINDOWS * N] physical-unit samples of its channel. *)
Lemma calibration_mean_high_bits_clear (ps : list (frame * frame)) (rest : list tick) :
  Z.of_nat (length ps) = CALIBRATION_WINDOWS * N ->
  forallb high_bits_clear ps = true ->
  exists g,
    calibrate (map ok_tick ps ++ rest) boot = Some (g, rest) /\
    is_calibrated g = true /\
    forall c,
      baseline_of g c = mean (map (spec_phys_sample c) ps) (CALIBRATION_WINDOWS * N).
Proof.
  intros Hlen Hclear.
  destruct (calibrate_all_reads_ok ps rest Hlen) as (g & Hrun & Hcal & _ & _ & Hb).
  exists g. split; [exact Hrun|]. split; [exact Hcal|].
  intros c. rewrite Hb. unfold mean. do 2 f_equal.
  apply map_ext_in. intros p Hp.
  apply cal_sample_high_bits_clear.
  rewrite forallb_forall in Hclear. now apply Hclear.
Qed.

(** C4, what the code does at the failing input. Every read of the
    calibration phase succeeds and every tick reads -1 count on the
    accelerometer and -3 counts on the gyroscope. Calibration completes on
    the [CALIBRATION_WINDOWS * N] ticks and sets [is_calibrated], but the
    baselines are not the means of the physical-unit samples: the mean of
    the accelerometer samples is about -0.000061 g and the baseline is
    about 3.9976 g; the mean of the gyroscope samples is about -0.026 dps
    and the baseline is about 573.4 dps. The calibration loop has averaged
    the readings as unsigned, 65535 and 65533 counts. *)
Theorem calibration_baseline_not_signed_mean :
  option_map (fun r => (baseline_of (fst r) AX, baseline_of (fst r) GX,
                        is_calibrated (fst r), snd r))
    (calibrate (map ok_tick (repeat (frame_of xff xff, frame_of xfd xff) 520)) boot)
  = Some (S754_finite false 16767362 (-22), S754_finite false 9394744 (-14), true, []) /\
  mean (map (spec_phys_sample AX) (repeat (frame_of xff xff, frame_of xfd xff) 520))
       (CALIBRATION_WINDOWS * N)
  = S754_finite true 16767504 (-38) /\
  mean (map (spec_phys_sample GX) (repeat (frame_of xff xff, frame_of xfd xff) 520))
       (CALIBRATION_WINDOWS * N)
  = S754_finite true 14092810 (-29) /\
  fltb (S754_finite true 16767504 (-38)) fzero = true /\
  fltb (of_int 3) (S754_finite false 16767362 (-22)) = true /\
  fltb (S754_finite true 14092810 (-29)) fzero = true /\
  fltb (of_int 573) (S754_finite false 9394744 (-14)) = true.
Proof. vm_compute. repeat split; reflexivity. Qed.

(** Constant readings of 16 counts on the accelerometer and 2 counts on the
    gyroscope: the baselines are the binary32 means, 48 and 29 units in the
    last place below the converted sample. *)
Example calibration_constant_reading :
  option_map (fun r => (baseline_of (fst r) AX, baseline_of (fst r) GX))
    (calibrate (map ok_tick (repeat (frame_of x10 x00, frame_of x02 x00) 520)) boot)
  = Some (S754_finite false 16767504 (-34), S754_finite false 9395212 (-29)) /\
  cal_sample AX (frame_of x10 x00, frame_of x02 x00) = S754_finite false 16767552 (-34) /\
  cal_sample GX (frame_of x10 x00, frame_of x02 x00) = S754_finite false 9395241 (-29).
Proof. vm_compute. repeat split; reflexivity. Qed.

(** Constant readings of -1 count (accelerometer) and -3 counts (gyroscope):
    the calibration loop averages 65535 and 65533 counts, so the baselines
    are about 3.9976 g and 573.4 dps. *)
Example calibration_negative_reading :
  option_map (fun r => (baseline_of (fst r) AX, baseline_of (fst r) GX))
    (calibrate (map ok_tick (repeat (frame_of xff xff, frame_of xfd xff) 520)) boot)
  = Some (S754_finite false 16767362 (-22), S754_finite false 9394744 (-14)) /\
  live_phys xff xff ACC_LSB = S754_finite true 16767552 (-38) /\
  live_phys xfd xff GYR_LSB = S754_finite true 14092862 (-29).
Proof. vm_compute. repeat split; reflexivity. Qed.

(** A sensor at rest (every reading 0) and one early tick whose
    accelerometer read returns 16384 counts before its gyroscope read
    fails: the 520 good ticks that follow complete the calibration, and the
    accelerometer baselines are [16384 * 0.000061f / 520], about 0.0019 g,
    instead of 0. *)
Example calibration_keeps_failed_tick :
  option_map (fun r => (baseline_of (fst r) AX, baseline_of (fst r) GX, snd r))
    (calibrate (mkTick (Some (frame_of x00 x40)) None
                  :: map ok_tick (repeat (frame_of x00 x00, frame_of x00 x00) 520))
               boot)
  = Some (fdiv (fmul (of_int 16384) ACC_LSB) (of_int 520), fzero, []) /\
  fdiv (fmul (of_int 16384) ACC_LSB) (of_int 520) = S754_finite false 16509590 (-33).
Proof. vm_compute. split; reflexivity. Qed.

(** One tick short, the calibration loop is still waiting. *)
Example calibration_waits_for_ticks :
  calibrate (map ok_tick (repeat (frame_of x10 x00, frame_of x02 x00) 519)) boot = None.
Proof. vm_compute. reflexivity. Qed.

(** ** Tie-break *)



(** ** Decision step *)

(** C9. After the decision step of every window at most one of
    [show_tremor] and [show_dyskinesia] is true, at least one of the two
    stability counters is 0, and at most one of the two indicator LEDs has
    a nonzero duty cycle; this holds for each window of every run. *)
Theorem decision_step_exclusive :
  (forall sw g l w, exclusive (window_step sw g l w)) /\
  (forall sw ws g l, Forall exclusive (run sw g l ws)).
Proof.
  assert (Hstep : forall sw g l w, exclusive (window_step sw g l w)).
  { intros sw g l w. unfold exclusive, window_step, led_feedback.
    destruct (tie_break w); cbn;
      repeat match goal with |- context [?a <=? ?b] => destruct (a <=? b) end;
      cbn; auto. }
  split; [exact Hstep|].
  intros sw ws. induction ws as [|w ws IH]; intros g l; cbn [run]; constructor.
  - apply Hstep.
  - apply IH.
Qed.

(** ** Stability filter *)

Lemma step_win sw g l w o :
  o <> WinNone -> tie_break w = o ->
  counter_of o (next (window_step sw g l w)) = wrap32 (counter_of o g + 1) /\
  shown o (window_step sw g l w) = (sw <=? wrap32 (counter_of o g + 1)) /\
  (shown o (window_step sw g l w) = true ->
   duty_of o (lights (window_step sw g l w)) = level_of o w).
Proof.
  intros Ho Hw. unfold window_step. rewrite Hw.
  destruct o; [| |congruence]; cbn; repeat split; intros ->; reflexivity.
Qed.

Lemma step_lose sw g l w o :
  o <> WinNone -> tie_break w <> o ->
  counter_of o (next (window_step sw g l w)) = 0 /\
  shown o (window_step sw g l w) = false.
Proof.
  intros Ho Hw. unfold window_step.
  destruct (tie_break w), o; try congruence; cbn; split; reflexivity.
Qed.

Lemma step_none sw g l w :
  tie_break w = WinNone ->
  stable_tremor (next (window_step sw g l w)) = 0 /\
  stable_dyskinesia (next (window_step sw g l w)) = 0.
Proof.
  intros Hw. unfold window_step. rewrite Hw. split; reflexivity.
Qed.

Lemma run_below_threshold sw o w_off ws : forall g l,
  o <> WinNone -> tie_break w_off <> o ->
  Forall (fun w => tie_break w = o) ws ->
  0 <= counter_of o g -> sw <= INT_MAX ->
  counter_of o g + Z.of_nat (length ws) < sw ->
  Forall (fun r => shown o r = false) (run sw g l (ws ++ [w_off])).
Proof.
  change INT_MAX with 2147483647.
  induction ws as [|w ws IH]; intros g l Ho Hoff Hall Hc Hsw Hlen.
  - cbn [app run]. constructor; [|constructor].
    apply (step_lose sw g l w_off o Ho Hoff).
  - apply Forall_cons_iff in Hall as [Hw Hws]. cbn [length] in Hlen.
    destruct (step_win sw g l w o Ho Hw) as (Hcnt & Hshow & _).
    rewrite wrap32_small in Hcnt, Hshow by (change (2 ^ 31) with 2147483648; lia).
    cbn [app run]. constructor.
    + rewrite Hshow. apply Z.leb_gt. lia.
    + apply IH; try assumption; rewrite Hcnt; lia.
Qed.

Lemma run_reaches_threshold sw o w_last ws : forall g l,
  o <> WinNone -> tie_break w_last = o ->
  Forall (fun w => tie_break w = o) ws ->
  0 <= counter_of o g ->
  counter_of o g + Z.of_nat (length ws) + 1 <= INT_MAX ->
  sw <= counter_of o g + Z.of_nat (length ws) + 1 ->
  exists rs r,
    run sw g l (ws ++ [w_last]) = rs ++ [r] /\
    shown o r = true /\
    duty_of o (lights r) = level_of o w_last.
Proof.
  change INT_MAX with 2147483647.
  induction ws as [|w ws IH]; intros g l Ho Hlast Hall Hc Hmax Hsw.
  - cbn [length] in *. exists [], (window_step sw g l w_last).
    destruct (step_win sw g l w_last o Ho Hlast) as (Hcnt & Hshow & Hduty).
    rewrite wrap32_small in Hshow by (change (2 ^ 31) with 2147483648; lia).
    assert (Hs : shown o (window_step sw g l w_last) = true)
      by (rewrite Hshow; apply Z.leb_le; lia).
    split; [reflexivity|]. split; [exact Hs|exact (Hduty Hs)].
  - apply Forall_cons_iff in Hall as [Hw Hws]. cbn [length] in *.
    destruct (step_win sw g l w o Ho Hw) as (Hcnt & _ & _).
    rewrite wrap32_small in Hcnt by (change (2 ^ 31) with 2147483648; lia).
    destruct (IH (next (window_step sw g l w)) (lights (window_step sw g l w)))
      as (rs & r & Hrun & Hs & Hd); try assumption; try (rewrite Hcnt; lia).
    exists (window_step sw g l w :: rs), r.
    cbn [app run]. rewrite Hrun. repeat split; assumption.
Qed.

(** C5, as amended. A window that condition [o] does not win resets the
    counter of [o] to 0, and a window that nobody wins resets both
    counters; a window that [o] wins adds one to the counter of [o] (the
    counter of the winner is not reset). With [1 <= stable_windows]: after a
    counter of 0, [stable_windows - 1] windows won by [o] followed by one
    window not won by [o] never show [o]; and from a counter that is not
    negative and leaves room for [stable_windows] increments below
    [INT_MAX], the last of [stable_windows] consecutive windows won by [o]
    shows [o] with the duty cycle equal to the level of that last window. *)
Theorem stability_filter (sw : Z) (o : outcome) (g : globals) (l : leds)
    (ws : list decision) (w_off w_last : decision) :
  o <> WinNone ->
  1 <= sw <= INT_MAX ->
  Forall (fun w => tie_break w = o) ws ->
  Z.of_nat (length ws) = sw - 1 ->
  tie_break w_off <> o ->
  tie_break w_last = o ->
  counter_of o (next (window_step sw g l w_off)) = 0 /\
  (tie_break w_off = WinNone ->
   stable_tremor (next (window_step sw g l w_off)) = 0 /\
   stable_dyskinesia (next (window_step sw g l w_off)) = 0) /\
  counter_of o (next (window_step sw g l w_last)) = wrap32 (counter_of o g + 1) /\
  (counter_of o g = 0 ->
   Forall (fun r => shown o r = false) (run sw g l (ws ++ [w_off]))) /\
  (0 <= counter_of o g <= INT_MAX - sw ->
   exists rs r,
     run sw g l (ws ++ [w_last]) = rs ++ [r] /\
     shown o r = true /\
     duty_of o (lights r) = level_of o w_last).
Proof.
  intros Ho Hsw Hall Hlen Hoff Hlast.
  split; [apply (step_lose sw g l w_off o Ho Hoff)|].
  split; [apply step_none|].
  split; [apply (step_win sw g l w_last o Ho Hlast)|].
  split.
  - intros Hc. apply run_below_threshold; try assumption; lia.
  - intros Hc. apply run_reaches_threshold; try assumption; lia.
Qed.

Lemma stability_filter_witness :
  Forall (fun r => shown WinTremor r = false)
         (run 2 boot leds_boot ([tremor_only (lit 30 100)] ++ [no_decision])) /\
  exists rs r,
    run 2 boot leds_boot ([tremor_only (lit 30 100)] ++ [tremor_only (lit 15 100)])
      = rs ++ [r] /\
    shown WinTremor r = true /\
    duty_of WinTremor (lights r) = level_of WinTremor (tremor_only (lit 15 100)).
Proof.
  assert (Ho : WinTremor <> WinNone) by discriminate.
  assert (Hsw : 1 <= 2 <= INT_MAX) by (change INT_MAX with 2147483647; lia).
  assert (Hall : Forall (fun w => tie_break w = WinTremor) [tremor_only (lit 30 100)])
    by (constructor; [reflexivity|constructor]).
  assert (Hoff : tie_break no_decision <> WinTremor) by discriminate.
  pose proof (stability_filter 2 WinTremor boot leds_boot
                [tremor_only (lit 30 100)] no_decision (tremor_only (lit 15 100))
                Ho Hsw Hall eq_refl Hoff eq_refl) as H.
  split.
  - apply (proj1 (proj2 (proj2 (proj2 H)))). reflexivity.
  - apply (proj2 (proj2 (proj2 (proj2 H)))).
    change INT_MAX with 2147483647. cbn. lia.
Defined.

(** The rule as the specification words it, "resets both counters": in a
    window where both tests pass with equal levels tremor loses the
    tie-break, and the dyskinesia counter is 1 afterwards, not 0. *)
Lemma stability_filter_counterexample :
  trem both_pass_equal = true /\
  tie_break both_pass_equal = WinDyskinesia /\
  stable_tremor (next (window_step STABLE_WINDOWS boot leds_boot both_pass_equal)) = 0 /\
  stable_dyskinesia (next (window_step STABLE_WINDOWS boot leds_boot both_pass_equal)) = 1 /\
  stable_dyskinesia (next (window_step STABLE_WINDOWS boot leds_boot both_pass_equal)) <> 0.
Proof.
  vm_compute. repeat split; try reflexivity. discriminate.
Qed.

(** * Further properties of the program *)

(** ** Window acquisition *)

Lemma length_store_nat l : forall i v, length (store_nat l i v) = length l.
Proof.
  induction l as [|x l IH]; intros [|i] v; cbn [store_nat length]; try reflexivity.
  now rewrite IH.
Qed.

Lemma firstn_store_nat l : forall i v,
  (i < length l)%nat -> firstn (S i) (store_nat l i v) = firstn i l ++ [v].
Proof.
  induction l as [|x l IH]; intros [|i] v Hi; cbn [length] in Hi; try lia.
  - reflexivity.
  - cbn [store_nat]. change (firstn (S (S i)) (x :: store_nat l i v))
      with (x :: firstn (S i) (store_nat l i v)).
    rewrite IH by lia. reflexivity.
Qed.

Lemma skipn_store_nat l : forall i n v,
  (i < n)%nat -> skipn n (store_nat l i v) = skipn n l.
Proof.
  induction l as [|x l IH]; intros [|i] [|n] v Hi; cbn [store_nat skipn]; try lia;
    try reflexivity.
  apply IH. lia.
Qed.

Lemma length_store l i v : length (store l i v) = length l.
Proof.
  unfold store. destruct (i <? 0); [reflexivity|apply length_store_nat].
Qed.

Lemma firstn_store l i v :
  0 <= i < Z.of_nat (length l) ->
  firstn (Z.to_nat (i + 1)) (store l i v) = firstn (Z.to_nat i) l ++ [v].
Proof.
  intros Hi. unfold store.
  destruct (i <? 0) eqn:E; [apply Z.ltb_lt in E; lia|].
  replace (Z.to_nat (i + 1)) with (S (Z.to_nat i)) by lia.
  apply firstn_store_nat. lia.
Qed.

Lemma skipn_store l i n v :
  0 <= i < n -> skipn (Z.to_nat n) (store l i v) = skipn (Z.to_nat n) l.
Proof.
  intros Hi. unfold store.
  destruct (i <? 0) eqn:E; [reflexivity|].
  apply skipn_store_nat. lia.
Qed.

Lemma zero_from_spec n : forall i l,
  0 <= i -> i + Z.of_nat n <= Z.of_nat (length l) ->
  zero_from n i l
  = firstn (Z.to_nat i) l ++ repeat fzero n ++ skipn (Z.to_nat (i + Z.of_nat n)) l.
Proof.
  induction n as [|n IH]; intros i l Hi Hlen.
  - cbn [zero_from repeat app]. replace (i + Z.of_nat 0) with i by lia.
    now rewrite firstn_skipn.
  - cbn [zero_from]. rewrite IH by (rewrite ?length_store; lia).
    rewrite firstn_store by lia.
    rewrite skipn_store by lia.
    rewrite <- app_assoc. cbn [app repeat].
    replace (i + 1 + Z.of_nat n) with (i + Z.of_nat (S n)) by lia. reflexivity.
Qed.

Lemma buffer_of_zero_pad_all b c :
  buffer_of (zero_pad_all b) c = zero_pad (buffer_of b c).
Proof. destruct c; reflexivity. Qed.

Lemma acq_tick_ok g b idx p c :
  buffer_of (fst (acq_tick g b idx (ok_tick p))) c
  = store (buffer_of b c) idx (live_sample g c p) /\
  snd (acq_tick g b idx (ok_tick p)) = idx + 1.
Proof. destruct c; split; reflexivity. Qed.

Lemma acq_window_ok g rest ps : forall b idx,
  0 <= idx -> idx + Z.of_nat (length ps) = N -> well_sized b ->
  exists b',
    acq_window (map ok_tick ps ++ rest) g b idx = Some (b', rest) /\
    forall c,
      buffer_of b' c
      = firstn (Z.to_nat idx) (buffer_of b c) ++ map (live_sample g c) ps
        ++ skipn (Z.to_nat N) (buffer_of b c).
Proof.
  induction ps as [|p ps IH]; intros b idx H0 Hlen Hb; cbn [length] in Hlen.
  - exists b. split.
    + assert (E : (idx <? N) = false) by (apply Z.ltb_ge; lia).
      cbn [map app]. destruct rest; cbn [acq_window]; rewrite E; reflexivity.
    + intros c. cbn [map app]. replace idx with N by lia. now rewrite firstn_skipn.
  - assert (E : (idx <? N) = true) by (apply Z.ltb_lt; lia).
    assert (HN : N <= FFTN) by (vm_compute; discriminate).
    cbn [map app acq_window]. rewrite E.
    destruct (acq_tick g b idx (ok_tick p)) as [b1 idx1] eqn:Et.
    assert (Hb1 : forall c, buffer_of b1 c = store (buffer_of b c) idx (live_sample g c p))
      by (intros c; pose proof (proj1 (acq_tick_ok g b idx p c)) as H; now rewrite Et in H).
    assert (Hidx1 : idx1 = idx + 1)
      by (pose proof (proj2 (acq_tick_ok g b idx p AX)) as H; now rewrite Et in H).
    subst idx1.
    destruct (IH b1 (idx + 1)) as [b' [Hrun Hbuf]]; try lia.
    { intros c. rewrite Hb1, length_store. apply Hb. }
    exists b'. split; [exact Hrun|].
    intros c. rewrite Hbuf, Hb1.
    pose proof (Hb c) as Hc.
    rewrite firstn_store by lia. rewrite skipn_store by lia.
    rewrite <- app_assoc. reflexivity.
Qed.

(** X1. A window acquired from [N] ticks whose reads all succeed: whatever
    the buffers held before, each channel buffer handed to the analysis is
    the [N] converted samples of the ticks, in tick order, followed by
    [FFTN - N] zeros, and the later ticks are left for the next window. *)
Theorem acquire_window_contents (g : globals) (b : buffers)
    (ps : list (frame * frame)) (rest : list tick) :
  well_sized b ->
  Z.of_nat (length ps) = N ->
  exists b',
    acquire (map ok_tick ps ++ rest) g b = Some (b', rest) /\
    forall c,
      buffer_of b' c
      = map (live_sample g c) ps ++ repeat fzero (Z.to_nat (FFTN - N)).
Proof.
  intros Hb Hlen.
  destruct (acq_window_ok g rest ps b 0) as [b1 [Hrun Hbuf]]; try lia; [exact Hb|].
  unfold acquire. rewrite Hrun. eexists. split; [reflexivity|].
  intros c. rewrite buffer_of_zero_pad_all, Hbuf. cbn [firstn Z.to_nat app].
  pose proof (Hb c) as Hc.
  assert (HN : 0 <= N <= FFTN) by (vm_compute; split; discriminate).
  assert (Hl : length (map (live_sample g c) ps ++ skipn (Z.to_nat N) (buffer_of b c))
               = Z.to_nat FFTN).
  { rewrite length_app, length_map, length_skipn. lia. }
  unfold zero_pad. rewrite zero_from_spec by lia.
  rewrite firstn_app, firstn_all2 by (rewrite length_map; lia).
  replace (Z.to_nat N - length (map (live_sample g c) ps))%nat with 0%nat
    by (rewrite length_map; lia).
  cbn [firstn]. rewrite app_nil_r.
  rewrite skipn_all2 by lia. now rewrite app_nil_r.
Qed.

Lemma acquire_window_contents_witness :
  exists b',
    acquire (map ok_tick (repeat (frame_of x10 x00, frame_of xfd xff) 104) ++ [])
            boot zero_buffers = Some (b', []) /\
    forall c,
      buffer_of b' c
      = map (live_sample boot c) (repeat (frame_of x10 x00, frame_of xfd xff) 104)
        ++ repeat fzero (Z.to_nat (FFTN - N)).
Proof.
  apply (acquire_window_contents boot zero_buffers
           (repeat (frame_of x10 x00, frame_of xfd xff) 104) []).
  - intros c. destruct c; reflexivity.
  - reflexivity.
Defined.

Lemma acq_tick_incomplete g b idx t :
  complete t = false -> acq_tick g b idx t = (b, idx).
Proof.
  unfold complete, acq_tick. destruct (acc_read t), (gyr_read t); try discriminate;
    reflexivity.
Qed.

Lemma acq_tick_complete_idx g b idx t :
  complete t = true -> snd (acq_tick g b idx t) = idx + 1.
Proof.
  unfold complete, acq_tick. destruct (acc_read t), (gyr_read t); try discriminate;
    reflexivity.
Qed.

(** X2. The acquisition loop does not see the ticks on which a read
    failed: a window run on a tick list with those ticks removed fills the
    buffers in the same way and leaves the same later ticks (those removed
    from them as well); in particular it completes on the one list exactly
    when it completes on the other. *)
Theorem acquisition_skips_failed_ticks (g : globals) (ts : list tick) :
  forall (b : buffers) (idx : Z),
    acq_window (filter complete ts) g b idx
    = option_map (fun r => (fst r, filter complete (snd r))) (acq_window ts g b idx).
Proof.
  induction ts as [|t ts IH]; intros b idx.
  - cbn [filter acq_window]. destruct (idx <? N); reflexivity.
  - cbn [filter]. destruct (complete t) eqn:Ec.
    + cbn [acq_window]. destruct (idx <? N) eqn:E.
      * destruct (acq_tick g b idx t) as [b1 idx1]. apply IH.
      * cbn [option_map fst snd filter]. rewrite Ec. reflexivity.
    + cbn [acq_window]. rewrite (acq_tick_incomplete g b idx t Ec).
      destruct (idx <? N) eqn:E.
      * apply IH.
      * cbn [option_map fst snd filter]. rewrite Ec.
        destruct (filter complete ts) eqn:Ef; cbn [acq_window]; rewrite E; reflexivity.
Qed.

Lemma acq_window_count g ts : forall b idx,
  0 <= idx <= N ->
  (acq_window ts g b idx = None <-> count_complete ts < N - idx) /\
  (forall b' rest, acq_window ts g b idx = Some (b', rest) ->
                   count_complete rest = count_complete ts - (N - idx)).
Proof.
  unfold count_complete.
  induction ts as [|t ts IH]; intros b idx Hidx; cbn [acq_window].
  - destruct (idx <? N) eqn:E.
    + apply Z.ltb_lt in E. cbn [filter length Z.of_nat].
      split; [split; [intros _; lia|reflexivity]|discriminate].
    + apply Z.ltb_ge in E. cbn [filter length Z.of_nat].
      split; [split; [discriminate|intros; lia]|].
      intros b' rest H. inversion H; subst. cbn [filter length Z.of_nat]. lia.
  - destruct (idx <? N) eqn:E.
    + apply Z.ltb_lt in E. cbn [filter]. destruct (complete t) eqn:Ec.
      * pose proof (acq_tick_complete_idx g b idx t Ec) as Hi.
        destruct (acq_tick g b idx t) as [b1 idx1]. cbn [snd] in Hi. subst idx1.
        destruct (IH b1 (idx + 1)) as [Hn Hs]; [lia|].
        cbn [length]. split.
        -- rewrite Hn. lia.
        -- intros b' rest H. rewrite (Hs b' rest H). lia.
      * rewrite (acq_tick_incomplete g b idx t Ec). apply IH. lia.
    + apply Z.ltb_ge in E. split; [split; [discriminate|]|].
      * pose proof (Zle_0_nat (length (filter complete (t :: ts)))). lia.
      * intros b' rest H. inversion H; subst. lia.
Qed.

(** X3. A window is complete exactly when [N] ticks with both reads
    succeeding have arrived: the acquisition of a window runs out of ticks
    (the program would wait for more) if and only if fewer than [N] such
    ticks are in the list, and a completed window has consumed exactly [N]
    of them. *)
Theorem acquire_completes_iff (g : globals) (b : buffers) (ts : list tick) :
  match acquire ts g b with
  | None => count_complete ts < N
  | Some (_, rest) =>
      N <= count_complete ts /\ count_complete rest = count_complete ts - N
  end.
Proof.
  assert (HN : 0 <= 0 <= N) by (vm_compute; split; discriminate).
  destruct (acq_window_count g ts b 0 HN) as [Hn Hs].
  unfold acquire.
  destruct (acq_window ts g b 0) as [[b1 r]|].
  - specialize (Hs b1 r eq_refl). split; [|lia].
    destruct (Z_lt_le_dec (count_complete ts) N) as [Hlt|Hle]; [|exact Hle].
    destruct Hn as [_ Hn].
    assert (Hlt' : count_complete ts < N - 0) by lia.
    specialize (Hn Hlt'). discriminate.
  - destruct Hn as [Hn _]. specialize (Hn eq_refl). lia.
Qed.

(** ** Calibration with failing reads *)

Lemma cal_tick_effect g idx t :
  cal_tick g idx t = (cal_effect g t, if complete t then idx + 1 else idx).
Proof.
  unfold cal_effect, cal_tick, complete.
  destruct (acc_read t), (gyr_read t); reflexivity.
Qed.

Lemma cal_effect_acc_failed g t : acc_ok t = false -> cal_effect g t = g.
Proof.
  unfold acc_ok, cal_effect, cal_tick. destruct (acc_read t); [discriminate|reflexivity].
Qed.

Lemma acc_failed_incomplete t : acc_ok t = false -> complete t = false.
Proof.
  unfold acc_ok, complete. destruct (acc_read t); [discriminate|reflexivity].
Qed.

Lemma cal_window_filter ts : forall g idx,
  cal_window (filter acc_ok ts) g idx
  = option_map (fun r => (fst r, filter acc_ok (snd r))) (cal_window ts g idx).
Proof.
  induction ts as [|t ts IH]; intros g idx.
  - cbn [filter cal_window]. destruct (idx <? N); reflexivity.
  - cbn [filter]. destruct (acc_ok t) eqn:Ea.
    + cbn [cal_window]. destruct (idx <? N) eqn:E.
      * destruct (cal_tick g idx t) as [g1 idx1]. apply IH.
      * cbn [option_map fst snd filter]. rewrite Ea. reflexivity.
    + cbn [cal_window]. rewrite cal_tick_effect.
      rewrite (cal_effect_acc_failed g t Ea), (acc_failed_incomplete t Ea).
      destruct (idx <? N) eqn:E.
      * apply IH.
      * cbn [option_map fst snd filter]. rewrite Ea.
        destruct (filter acc_ok ts) eqn:Ef; cbn [cal_window]; rewrite E; reflexivity.
Qed.

Lemma cal_windows_filter n : forall ts g,
  cal_windows n (filter acc_ok ts) g
  = option_map (fun r => (fst r, filter acc_ok (snd r))) (cal_windows n ts g).
Proof.
  induction n as [|n IH]; intros ts g; [reflexivity|].
  cbn [cal_windows]. rewrite cal_window_filter.
  destruct (cal_window ts g 0) as [[g1 r]|]; [|reflexivity].
  cbn [option_map fst snd]. apply IH.
Qed.

(** X4. Calibration does not see the ticks on which the accelerometer read
    failed: run on a tick list with those ticks removed it ends with the
    same baselines and the same later ticks (those removed from them as
    well), and it completes on the one list exactly when it completes on
    the other. *)
Theorem calibration_skips_failed_accel_reads (ts : list tick) (g : globals) :
  calibrate (filter acc_ok ts) g
  = option_map (fun r => (fst r, filter acc_ok (snd r))) (calibrate ts g).
Proof.
  unfold calibrate. rewrite cal_windows_filter.
  destruct (cal_windows (Z.to_nat CALIBRATION_WINDOWS) ts g) as [[g1 r]|]; reflexivity.
Qed.








(** ** Aggregation over the six channels *)

Lemma fleb_trans a b c : fleb a b = true -> fleb b c = true -> fleb a c = true.
Proof. float_order. Qed.

Lemma fmaxf_cases l v : fmaxf l v = l \/ fmaxf l v = v.
Proof.
  unfold fmaxf. destruct (is_nan l); [now right|].
  destruct (is_nan v); [now left|]. destruct (fgtb l v); [now left|now right].
Qed.

Lemma fmaxf_ge_l l v : is_nan l = false -> fleb l (fmaxf l v) = true.
Proof.
  intros Hl. unfold fmaxf. rewrite Hl.
  destruct (is_nan v) eqn:Hv; [now apply fleb_refl|].
  destruct (fgtb l v) eqn:E; [now apply fleb_refl|].
  apply fleb_total; assumption.
Qed.

Lemma fmaxf_ge_r l v :
  is_nan l = false -> is_nan v = false -> fleb v (fmaxf l v) = true.
Proof.
  intros Hl Hv. unfold fmaxf. rewrite Hl, Hv.
  destruct (fgtb l v) eqn:E; [|now apply fleb_refl].
  apply fltb_fleb. exact E.
Qed.

Lemma fminf_unit l : fleb fzero l = true -> unit_range (fminf l fone).
Proof.
  intros Hl. pose proof (fleb_not_nan _ _ Hl) as Hn.
  unfold unit_range, fminf. rewrite Hn. cbn [is_nan fone].
  destruct (fltb l fone) eqn:E.
  - split; [exact Hl|now apply fltb_fleb].
  - split; reflexivity.
Qed.

Lemma fminf_mono x y :
  fleb x y = true -> is_nan x = false -> fleb (fminf x fone) (fminf y fone) = true.
Proof.
  intros Hxy Hx. pose proof (fleb_not_nan _ _ Hxy) as Hy.
  unfold fminf. rewrite Hx, Hy. cbn [is_nan fone].
  destruct (fltb x fone) eqn:Ex; destruct (fltb y fone) eqn:Ey.
  - exact Hxy.
  - now apply fltb_fleb.
  - assert (H1 : fleb fone x = true) by (apply fleb_total; try assumption; reflexivity).
    assert (H2 : fltb fone fone = true)
      by (eapply fleb_fltb_trans; [exact (fleb_trans _ _ _ H1 Hxy)|exact Ey]).
    discriminate H2.
  - reflexivity.
Qed.

Section Aggregate.

Variable rs : channel -> spectral_result.

Lemma step_fields a c :
  trem (agg_step rs a c) = trem a || pass_T rs c /\
  dysk (agg_step rs a c) = dysk a || pass_D rs c /\
  levelT (agg_step rs a c) = (if pass_T rs c then fmaxf (levelT a) (contrib_T rs c) else levelT a) /\
  levelD (agg_step rs a c) = (if pass_D rs c then fmaxf (levelD a) (contrib_D rs c) else levelD a).
Proof.
  unfold agg_step, decide, pass_T, pass_D, contrib_T, contrib_D.
  destruct (band_test (peak_3_5 (rs c)) (rms (rs c)) (tth_of c));
    destruct (band_test (peak_5_7 (rs c)) (rms (rs c)) (dth_of c));
    cbn [trem dysk levelT levelD]; rewrite ?orb_true_r, ?orb_false_r; auto.
Qed.

Lemma fold_flags cs : forall a,
  trem (fold_left (agg_step rs) cs a) = trem a || existsb (pass_T rs) cs /\
  dysk (fold_left (agg_step rs) cs a) = dysk a || existsb (pass_D rs) cs.
Proof.
  induction cs as [|c cs IH]; intros a; cbn [fold_left existsb].
  - now rewrite !orb_false_r.
  - destruct (IH (agg_step rs a c)) as [-> ->].
    destruct (step_fields a c) as (-> & -> & _). now rewrite !orb_assoc.
Qed.

Lemma fold_levels_nonneg cs : forall a,
  fleb fzero (levelT a) = true -> fleb fzero (levelD a) = true ->
  fleb fzero (levelT (fold_left (agg_step rs) cs a)) = true /\
  fleb fzero (levelD (fold_left (agg_step rs) cs a)) = true.
Proof.
  induction cs as [|c cs IH]; intros a HT HD; cbn [fold_left]; [now split|].
  destruct (step_fields a c) as (_ & _ & ET & ED).
  apply IH.
  - rewrite ET. destruct (pass_T rs c); [|exact HT].
    eapply fleb_trans; [exact HT|]. apply fmaxf_ge_l. eapply fleb_not_nan; eauto.
  - rewrite ED. destruct (pass_D rs c); [|exact HD].
    eapply fleb_trans; [exact HD|]. apply fmaxf_ge_l. eapply fleb_not_nan; eauto.
Qed.

Lemma fold_levels_grow cs : forall a,
  fleb fzero (levelT a) = true -> fleb fzero (levelD a) = true ->
  fleb (levelT a) (levelT (fold_left (agg_step rs) cs a)) = true /\
  fleb (levelD a) (levelD (fold_left (agg_step rs) cs a)) = true.
Proof.
  induction cs as [|c cs IH]; intros a HT HD; cbn [fold_left].
  - split; apply fleb_refl; eapply fleb_not_nan; eauto.
  - destruct (fold_levels_nonneg [c] a HT HD) as [HT1 HD1]. cbn [fold_left] in HT1, HD1.
    destruct (IH (agg_step rs a c) HT1 HD1) as [GT GD].
    destruct (step_fields a c) as (_ & _ & ET & ED).
    assert (HnT : is_nan (levelT a) = false) by (eapply fleb_not_nan; eauto).
    assert (HnD : is_nan (levelD a) = false) by (eapply fleb_not_nan; eauto).
    split.
    + eapply fleb_trans; [|exact GT]. rewrite ET.
      destruct (pass_T rs c); [now apply fmaxf_ge_l|now apply fleb_refl].
    + eapply fleb_trans; [|exact GD]. rewrite ED.
      destruct (pass_D rs c); [now apply fmaxf_ge_l|now apply fleb_refl].
Qed.

Lemma fold_levels_bound cs : forall a c,
  fleb fzero (levelT a) = true -> fleb fzero (levelD a) = true ->
  In c cs ->
  (pass_T rs c = true -> is_nan (contrib_T rs c) = false ->
   fleb (contrib_T rs c) (levelT (fold_left (agg_step rs) cs a)) = true) /\
  (pass_D rs c = true -> is_nan (contrib_D rs c) = false ->
   fleb (contrib_D rs c) (levelD (fold_left (agg_step rs) cs a)) = true).
Proof.
  induction cs as [|c0 cs IH]; intros a c HT HD Hin; [contradiction|].
  cbn [fold_left].
  destruct (fold_levels_nonneg [c0] a HT HD) as [HT1 HD1]. cbn [fold_left] in HT1, HD1.
  destruct Hin as [->|Hin]; [|now apply IH].
  destruct (fold_levels_grow cs (agg_step rs a c) HT1 HD1) as [GT GD].
  destruct (step_fields a c) as (_ & _ & ET & ED).
  assert (HnT : is_nan (levelT a) = false) by (eapply fleb_not_nan; eauto).
  assert (HnD : is_nan (levelD a) = false) by (eapply fleb_not_nan; eauto).
  split; intros Hp Hq.
  - eapply fleb_trans; [|exact GT]. rewrite ET, Hp. now apply fmaxf_ge_r.
  - eapply fleb_trans; [|exact GD]. rewrite ED, Hp. now apply fmaxf_ge_r.
Qed.

Lemma fold_levels_attained cs : forall a,
  (levelT (fold_left (agg_step rs) cs a) = levelT a \/
   exists c, In c cs /\ pass_T rs c = true /\ levelT (fold_left (agg_step rs) cs a) = contrib_T rs c) /\
  (levelD (fold_left (agg_step rs) cs a) = levelD a \/
   exists c, In c cs /\ pass_D rs c = true /\ levelD (fold_left (agg_step rs) cs a) = contrib_D rs c).
Proof.
  induction cs as [|c0 cs IH]; intros a; cbn [fold_left]; [split; now left|].
  destruct (IH (agg_step rs a c0)) as [IT ID].
  destruct (step_fields a c0) as (_ & _ & ET & ED).
  split.
  - destruct IT as [IT|(c & Hc & Hp & Hl)].
    + rewrite IT, ET. destruct (pass_T rs c0) eqn:Hp; [|now left].
      destruct (fmaxf_cases (levelT a) (contrib_T rs c0)) as [->| ->]; [now left|].
      right. exists c0. repeat split; [now left|exact Hp].
    + right. exists c. repeat split; [now right|exact Hp|exact Hl].
  - destruct ID as [ID|(c & Hc & Hp & Hl)].
    + rewrite ID, ED. destruct (pass_D rs c0) eqn:Hp; [|now left].
      destruct (fmaxf_cases (levelD a) (contrib_D rs c0)) as [->| ->]; [now left|].
      right. exists c0. repeat split; [now left|exact Hp].
    + right. exists c. repeat split; [now right|exact Hp|exact Hl].
Qed.

Lemma fold_levels_unflagged cs : forall a,
  (trem (fold_left (agg_step rs) cs a) = false -> levelT (fold_left (agg_step rs) cs a) = levelT a) /\
  (dysk (fold_left (agg_step rs) cs a) = false -> levelD (fold_left (agg_step rs) cs a) = levelD a).
Proof.
  induction cs as [|c cs IH]; intros a; cbn [fold_left]; [split; reflexivity|].
  destruct (IH (agg_step rs a c)) as [IT ID].
  destruct (fold_flags cs (agg_step rs a c)) as [FT FD].
  destruct (step_fields a c) as (ET' & ED' & ET & ED).
  split; intros H.
  - rewrite (IT H). rewrite FT, ET' in H.
    destruct (pass_T rs c); [|exact ET]. rewrite orb_true_r in H. discriminate.
  - rewrite (ID H). rewrite FD, ED' in H.
    destruct (pass_D rs c); [|exact ED]. rewrite orb_true_r in H. discriminate.
Qed.

(** X6. The window flags are the disjunction over the six channels of the
    band tests, and a level whose flag is not set is 0. *)
Theorem window_flags_are_disjunctions :
  trem (decide_window rs)
    = existsb (fun c => band_test (peak_3_5 (rs c)) (rms (rs c)) (tth_of c)) channels /\
  dysk (decide_window rs)
    = existsb (fun c => band_test (peak_5_7 (rs c)) (rms (rs c)) (dth_of c)) channels /\
  (if trem (decide_window rs) then True else levelT (decide_window rs) = fzero) /\
  (if dysk (decide_window rs) then True else levelD (decide_window rs) = fzero).
Proof.
  unfold decide_window. cbn [clamp trem dysk levelT levelD].
  destruct (fold_flags channels no_decision) as [FT FD].
  destruct (fold_levels_unflagged channels no_decision) as [UT UD].
  fold (agg_step rs). split; [exact FT|]. split; [exact FD|]. split.
  - destruct (trem (fold_left (agg_step rs) channels no_decision)); [exact I|].
    rewrite (UT eq_refl). reflexivity.
  - destruct (dysk (fold_left (agg_step rs) channels no_decision)); [exact I|].
    rewrite (UD eq_refl). reflexivity.
Qed.

(** X7. Whatever the analyzer found (NaN included), both levels of the
    window decision lie between 0 and 1, and so does every duty cycle the
    decision step writes to the two indicator LEDs. *)
Theorem levels_and_duties_in_unit_range (sw : Z) (g : globals) (l : leds) :
  unit_range (levelT (decide_window rs)) /\
  unit_range (levelD (decide_window rs)) /\
  unit_range (tremor_duty (lights (window_step sw g l (decide_window rs)))) /\
  unit_range (dyskinesia_duty (lights (window_step sw g l (decide_window rs)))).
Proof.
  destruct (fold_levels_nonneg channels no_decision eq_refl eq_refl) as [HT HD].
  assert (UT : unit_range (levelT (decide_window rs))) by (apply fminf_unit; exact HT).
  assert (UD : unit_range (levelD (decide_window rs))) by (apply fminf_unit; exact HD).
  assert (U0 : unit_range fzero) by (split; reflexivity).
  split; [exact UT|]. split; [exact UD|].
  unfold window_step, led_feedback.
  destruct (tie_break (decide_window rs)); cbn;
    repeat match goal with |- context [?a <=? ?b] => destruct (a <=? b) end;
    cbn; split; assumption.
Qed.

(** X8. Each level of the window decision is the largest contribution,
    clamped to 1: it is at least the clamped contribution [peak / scale] of
    every channel whose test passed (a NaN quotient apart), and it is 0 or
    the clamped contribution of one of those channels. *)
Theorem levels_are_largest_contributions :
  (forall c,
     (if pass_T rs c && negb (is_nan (contrib_T rs c))
      then fleb (fminf (contrib_T rs c) fone) (levelT (decide_window rs)) = true
      else True) /\
     (if pass_D rs c && negb (is_nan (contrib_D rs c))
      then fleb (fminf (contrib_D rs c) fone) (levelD (decide_window rs)) = true
      else True)) /\
  (levelT (decide_window rs) = fzero \/
   exists c, pass_T rs c = true /\ levelT (decide_window rs) = fminf (contrib_T rs c) fone) /\
  (levelD (decide_window rs) = fzero \/
   exists c, pass_D rs c = true /\ levelD (decide_window rs) = fminf (contrib_D rs c) fone).
Proof.
  unfold decide_window. cbn [clamp levelT levelD]. fold (agg_step rs).
  split; [|split].
  - intros c.
    assert (Hin : In c channels) by (destruct c; cbn; tauto).
    destruct (fold_levels_bound channels no_decision c eq_refl eq_refl Hin) as [BT BD].
    split.
    + destruct (pass_T rs c) eqn:Hp; [|exact I].
      destruct (is_nan (contrib_T rs c)) eqn:Hn; [exact I|]. cbn [andb negb].
      apply fminf_mono; [now apply BT|exact Hn].
    + destruct (pass_D rs c) eqn:Hp; [|exact I].
      destruct (is_nan (contrib_D rs c)) eqn:Hn; [exact I|]. cbn [andb negb].
      apply fminf_mono; [now apply BD|exact Hn].
  - destruct (proj1 (fold_levels_attained channels no_decision)) as [->|(c & _ & Hp & ->)].
    + now left.
    + right. now exists c.
  - destruct (proj2 (fold_levels_attained channels no_decision)) as [->|(c & _ & Hp & ->)].
    + now left.
    + right. now exists c.
Qed.

End Aggregate.

(** ** The analyzer on arbitrary arrays *)

Lemma fltb_irrefl x : fltb x x = false.
Proof. float_order. Qed.

Lemma fltb_trans a b c : fltb a b = true -> fltb b c = true -> fltb a c = true.
Proof. float_order. Qed.

Section ScanAny.

Variable mag : list float.
Variable lo : Z.

Lemma scanned_any_start : scanned_any mag lo lo (fzero, lo).
Proof.
  unfold scanned_any; cbn [fst snd].
  repeat split; try reflexivity; try lia; intros; try lia. now left.
Qed.

Lemma peak_loop_any n : forall k pk,
  0 <= lo <= k -> k + Z.of_nat n <= Z.of_nat (length mag) ->
  scanned_any mag lo k pk ->
  exists pk', for_range n k (peak_body mag) pk = Some pk' /\
              scanned_any mag lo (k + Z.of_nat n) pk'.
Proof.
  induction n as [|n IH]; intros k [p kp] Hk Hn Inv.
  - exists (p, kp). split; [reflexivity|]. now replace (k + Z.of_nat 0) with k by lia.
  - cbn [for_range]. unfold peak_body at 1.
    destruct (mag_at_some mag k) as [m [Hm _]]; [lia|]. rewrite Hm. cbn [fst].
    replace (k + Z.of_nat (S n)) with ((k + 1) + Z.of_nat n) by lia.
    unfold scanned_any in Inv; cbn [fst snd] in Inv.
    destruct Inv as (Hp & Hkp & Hmax & Hat).
    destruct (fgtb m p) eqn:Hgt; apply IH; try lia;
      unfold scanned_any; cbn [fst snd].
    + change (fltb p m = true) in Hgt. repeat split; try lia.
      * apply fltb_fleb. eapply fleb_fltb_trans; eauto.
      * intros j mj Hj Hmj. change (fltb m mj = false).
        destruct (Z.eq_dec j k) as [->|Hne].
        -- rewrite Hm in Hmj. inversion Hmj; subst. apply fltb_irrefl.
        -- destruct (fltb m mj) eqn:E; [|reflexivity].
           assert (Hc : fgtb mj p = true)
             by (change (fltb p mj = true); eapply fltb_trans; eauto).
           rewrite (Hmax j mj) in Hc by (try lia; assumption). discriminate.
      * right. split; [lia|assumption].
    + repeat split; try assumption.
      * intros j mj Hj Hmj. destruct (Z.eq_dec j k) as [->|Hne].
        -- rewrite Hm in Hmj. inversion Hmj; subst. exact Hgt.
        -- apply (Hmax j mj); [lia|assumption].
      * destruct Hat as [[Hz Hl]|[Hlt Hat]]; [now left|right; split; [lia|assumption]].
Qed.

Lemma peak_scan_any hi :
  0 <= lo <= hi -> hi < Z.of_nat (length mag) ->
  exists p kp, for_le lo hi (peak_body mag) (fzero, lo) = Some (p, kp) /\
               peak_sound mag lo hi p kp.
Proof.
  intros Hlo Hhi. unfold for_le.
  destruct (peak_loop_any (Z.to_nat (hi + 1 - lo)) lo (fzero, lo)) as [[p kp] [Hrun Inv]];
    try lia; [apply scanned_any_start|].
  exists p, kp. split; [exact Hrun|].
  replace (lo + Z.of_nat (Z.to_nat (hi + 1 - lo))) with (hi + 1) in Inv by lia.
  unfold scanned_any in Inv; cbn [fst snd] in Inv.
  destruct Inv as (Hp & Hkp & Hmax & Hat).
  unfold peak_sound. repeat split; try assumption.
  - destruct Hat as [[_ ->]|[? _]]; lia.
  - destruct Hat as [[-> _]|[_ Hat]]; [now left|now right].
  - intros k m Hk Hm. apply (Hmax k m); [lia|exact Hm].
Qed.

End ScanAny.

(** X9. On every magnitude array of [FFTN / 2] entries, whatever they are
    (NaN and negative values included), with bin indices
    [0 <= i3 <= i5 <= i7] and [i7 + 2] inside the array, the analyzer
    returns a result whose peak bins lie inside their bands and whose
    peaks are not negative (so not NaN), are 0 or the entry at the reported
    bin, and are exceeded by no entry of the band. *)
Theorem spectral_peaks_on_any_array (b : bins) (mag : list float) :
  Z.of_nat (length mag) = FFTN / 2 ->
  0 <= i3 b <= i5 b -> i5 b <= i7 b -> i7 b + 2 < FFTN / 2 ->
  exists r,
    spectral b mag = Some r /\
    peak_sound mag (i3 b) (i5 b) (peak_3_5 r) (peak_3_5_bin r) /\
    peak_sound mag (i5 b) (i7 b) (peak_5_7 r) (peak_5_7_bin r).
Proof.
  intros Hlen H35 H57 H7.
  change (FFTN / 2) with 128 in *.
  unfold spectral, for_lt.
  rewrite !wrap32_small by (change (2 ^ 31) with 2147483648; lia).
  rewrite rms_loop by lia.
  destruct (peak_scan_any mag (i3 b) (i5 b)) as (p35 & k35 & Hrun35 & Hs35); try lia.
  destruct (peak_scan_any mag (i5 b) (i7 b)) as (p57 & k57 & Hrun57 & Hs57); try lia.
  rewrite Hrun35, Hrun57.
  eexists. split; [reflexivity|]. split; assumption.
Qed.

Lemma spectral_peaks_on_any_array_witness :
  exists r,
    spectral (mkBins 7 12 17)
             (repeat S754_nan 9 ++ SFopp fone :: fone :: repeat S754_nan 117) = Some r /\
    peak_sound (repeat S754_nan 9 ++ SFopp fone :: fone :: repeat S754_nan 117)
               7 12 (peak_3_5 r) (peak_3_5_bin r) /\
    peak_sound (repeat S754_nan 9 ++ SFopp fone :: fone :: repeat S754_nan 117)
               12 17 (peak_5_7 r) (peak_5_7_bin r).
Proof.
  apply (spectral_peaks_on_any_array (mkBins 7 12 17)
           (repeat S754_nan 9 ++ SFopp fone :: fone :: repeat S754_nan 117)).
  - reflexivity.
  - cbn; lia.
  - cbn; lia.
  - vm_compute; reflexivity.
Defined.

(** In the witness array, NaN everywhere but -1 at bin 9 and 1 at bin 10,
    the 3-5 Hz peak is 1 at bin 10 and the 5-7 Hz peak stays 0 at bin 12;
    the RMS is NaN. *)
Example spectral_with_nan_entries :
  spectral (mkBins 7 12 17)
           (repeat S754_nan 9 ++ SFopp fone :: fone :: repeat S754_nan 117)
  = Some (mkSpectral S754_nan fone 10 fzero 12).
Proof. vm_compute. reflexivity. Qed.

Lemma rms_range_leaves_array mag n : forall k acc,
  0 <= k -> (0 < n)%nat -> Z.of_nat (length mag) < k + Z.of_nat n ->
  for_range n k (rms_body mag) acc = None.
Proof.
  induction n as [|n IH]; intros k acc Hk Hn Hlen; [lia|].
  cbn [for_range]. unfold rms_body at 1.
  destruct (Z_lt_le_dec k (Z.of_nat (length mag))) as [Hin|Hout].
  - destruct (mag_at_some mag k) as [m [-> _]]; [lia|].
    apply IH; lia.
  - now rewrite mag_at_none.
Qed.

(** X10. The array the analyzer needs: with bin indices
    [0 <= i3 <= i5 <= i7] (and [i7 + 3] an [int]) the analyzer reads outside
    the magnitude array exactly when the array has at most [i7 + 2]
    entries; with [i7 + 3] entries or more every read is inside. *)
Theorem spectral_in_bounds_iff (b : bins) (mag : list float) :
  0 <= i3 b <= i5 b -> i5 b <= i7 b -> i7 b + 3 <= INT_MAX ->
  (spectral b mag = None <-> Z.of_nat (length mag) <= i7 b + 2).
Proof.
  intros H35 H57 Hmax. change INT_MAX with 2147483647 in Hmax.
  unfold spectral, for_lt, for_le.
  rewrite !wrap32_small by (change (2 ^ 31) with 2147483648; lia).
  split.
  - intros Hnone.
    destruct (Z_le_gt_dec (Z.of_nat (length mag)) (i7 b + 2)) as [Hle|Hgt]; [exact Hle|].
    exfalso. rewrite rms_loop in Hnone by lia.
    destruct (for_range_total (peak_body mag) (Z.to_nat (i5 b + 1 - i3 b)) (i3 b)
                (fzero, i3 b)) as [[p35 k35] E35].
    { intros j x Hj. apply peak_body_in_range. lia. }
    destruct (for_range_total (peak_body mag) (Z.to_nat (i7 b + 1 - i5 b)) (i5 b)
                (fzero, i5 b)) as [[p57 k57] E57].
    { intros j x Hj. apply peak_body_in_range. lia. }
    rewrite E35, E57 in Hnone. discriminate.
  - intros Hle. rewrite rms_range_leaves_array; [reflexivity|lia|lia|lia].
Qed.

Lemma spectral_in_bounds_iff_witness :
  spectral (mkBins 7 12 17) (repeat fone 19) = None <->
  Z.of_nat (length (repeat fone 19)) <= i7 (mkBins 7 12 17) + 2.
Proof.
  apply (spectral_in_bounds_iff (mkBins 7 12 17) (repeat fone 19)).
  - cbn; lia.
  - cbn; lia.
  - vm_compute; discriminate.
Defined.

(** ** Invariants of the window loop *)

Lemma window_step_keeps_baselines sw g l w :
  baseline_acc (next (window_step sw g l w)) = baseline_acc g /\
  baseline_gyr (next (window_step sw g l w)) = baseline_gyr g /\
  is_calibrated (next (window_step sw g l w)) = is_calibrated g.
Proof.
  unfold window_step. destruct (tie_break w); repeat split; reflexivity.
Qed.

Lemma window_step_counters sw g l w k :
  0 <= stable_tremor g <= k -> 0 <= stable_dyskinesia g <= k -> k < INT_MAX ->
  0 <= stable_tremor (next (window_step sw g l w)) <= k + 1 /\
  0 <= stable_dyskinesia (next (window_step sw g l w)) <= k + 1.
Proof.
  change INT_MAX with 2147483647. intros Ht Hd Hk.
  unfold window_step. destruct (tie_break w); cbn;
    rewrite ?wrap32_small by (change (2 ^ 31) with 2147483648; lia); lia.
Qed.

(** X11. Along a run of windows the decision step never writes the
    baselines or [is_calibrated], and the stability counters stay between 0
    and the number of windows processed: from counters between 0 and [k],
    after any further windows that keep the total at most [INT_MAX], no
    counter is negative or has overflowed. *)
Theorem run_keeps_baselines_and_counter_bounds
    (sw : Z) (ws : list decision) (g : globals) (l : leds) (k : Z) :
  0 <= stable_tremor g <= k ->
  0 <= stable_dyskinesia g <= k ->
  k + Z.of_nat (length ws) <= INT_MAX ->
  Forall (fun r =>
            baseline_acc (next r) = baseline_acc g /\
            baseline_gyr (next r) = baseline_gyr g /\
            is_calibrated (next r) = is_calibrated g /\
            0 <= stable_tremor (next r) <= k + Z.of_nat (length ws) /\
            0 <= stable_dyskinesia (next r) <= k + Z.of_nat (length ws))
         (run sw g l ws).
Proof.
  revert g l k. induction ws as [|w ws IH]; intros g l k Ht Hd Hk; cbn [run];
    [constructor|].
  cbn [length] in *.
  destruct (window_step_keeps_baselines sw g l w) as (Ba & Bg & Bc).
  destruct (window_step_counters sw g l w k Ht Hd ltac:(lia)) as [Ct Cd].
  constructor.
  - repeat split; try assumption; lia.
  - specialize (IH (next (window_step sw g l w)) (lights (window_step sw g l w))
                   (k + 1) Ct Cd ltac:(lia)).
    rewrite Ba, Bg, Bc in IH.
    eapply Forall_impl; [|exact IH].
    cbn beta. intros r (H1 & H2 & H3 & H4 & H5). repeat split; try assumption; lia.
Qed.

Lemma run_keeps_baselines_and_counter_bounds_witness :
  Forall (fun r =>
            baseline_acc (next r) = baseline_acc boot /\
            baseline_gyr (next r) = baseline_gyr boot /\
            is_calibrated (next r) = is_calibrated boot /\
            0 <= stable_tremor (next r)
              <= 0 + Z.of_nat (length [both_pass_equal; tremor_only fone; no_decision]) /\
            0 <= stable_dyskinesia (next r)
              <= 0 + Z.of_nat (length [both_pass_equal; tremor_only fone; no_decision]))
         (run STABLE_WINDOWS boot leds_boot [both_pass_equal; tremor_only fone; no_decision]).
Proof.
  apply (run_keeps_baselines_and_counter_bounds STABLE_WINDOWS
           [both_pass_equal; tremor_only fone; no_decision] boot leds_boot 0).
  - cbn; lia.
  - cbn; lia.
  - vm_compute; discriminate.
Defined.

Lemma window_step_leds sw g l w :
  leds_wf l ->
  leds_wf (lights (window_step sw g l w)) /\
  led_status (lights (window_step sw g l w))
  = show_tremor (window_step sw g l w) || show_dyskinesia (window_step sw g l w).
Proof.
  intros (Hp & Ht & Hd & Htd & Hdd).
  unfold leds_wf, window_step, led_feedback.
  destruct (tie_break w); cbn;
    repeat match goal with |- context [?a <=? ?b] => destruct (a <=? b) end;
    cbn; repeat split; auto.
Qed.

(** X12. Along every run from the boot state of the LEDs: the power LED
    stays off, the status LED is on exactly in the windows that show a
    condition, the PWM period of an indicator LED is its boot value of 1 ms
    or the blink period of its condition (500 ms for tremor, 200 ms for
    dyskinesia), and an indicator LED has a nonzero duty cycle only with
    that blink period. *)
Theorem run_leds_well_formed (sw : Z) (ws : list decision) (g : globals) :
  Forall (fun r =>
            leds_wf (lights r) /\
            led_status (lights r) = show_tremor r || show_dyskinesia r)
         (run sw g leds_boot ws).
Proof.
  assert (H0 : leds_wf leds_boot) by (unfold leds_wf; cbn; auto 10).
  revert H0. generalize leds_boot as l. revert g.
  induction ws as [|w ws IH]; intros g l Hl; cbn [run]; constructor.
  - apply window_step_leds. exact Hl.
  - apply IH. apply window_step_leds. exact Hl.
Qed.

(** ** The 16-bit reading *)

Lemma live_raw_round_trip_check :
  all_from 256 0 (fun x => all_from 256 0 (fun y =>
    let r := to_int16 (Z.lor x (Z.shiftl y 8)) in
    (- 32768 <=? r) && (r <=? 32767)
    && (r mod 256 =? x) && ((r / 256) mod 256 =? y)
    && Bool.eqb (r <? 0) (128 <=? y))) = true.
Proof. vm_compute. reflexivity. Qed.

(** X13. The reading of the acquisition loop is the two's complement value
    of its two bytes: it lies between -32768 and 32767, the bytes are
    recovered from it as [r mod 256] and [(r / 256) mod 256], and it is
    negative exactly when the high bit of the upper byte is set. *)
Theorem live_raw_round_trip (lo hi : byte) :
  - 32768 <= live_raw lo hi <= 32767 /\
  live_raw lo hi mod 256 = u8 lo /\
  (live_raw lo hi / 256) mod 256 = u8 hi /\
  (live_raw lo hi <? 0) = (128 <=? u8 hi).
Proof.
  pose proof (u8_range lo) as Hlo. pose proof (u8_range hi) as Hhi.
  pose proof (all_from_spec _ _ _ live_raw_round_trip_check (u8 lo) ltac:(lia)) as H1.
  cbv beta in H1.
  pose proof (all_from_spec _ _ _ H1 (u8 hi) ltac:(lia)) as H2.
  cbv beta zeta in H2. unfold live_raw, assemble.
  repeat (apply andb_true_iff in H2; destruct H2 as [H2 ?]).
  repeat split.
  - now apply Z.leb_le.
  - now apply Z.leb_le.
  - now apply Z.eqb_eq.
  - now apply Z.eqb_eq.
  - now apply Bool.eqb_prop.
Qed.

Lemma live_phys_range_check lsb bound :
  (lsb = ACC_LSB /\ bound = 2) \/ (lsb = GYR_LSB /\ bound = 287) ->
  all_from 256 0 (fun x => all_from 256 0 (fun y =>
    fleb (of_int (- bound)) (fmul (of_int (to_int16 (Z.lor x (Z.shiftl y 8)))) lsb)
    && fleb (fmul (of_int (to_int16 (Z.lor x (Z.shiftl y 8)))) lsb) (of_int bound)))
  = true.
Proof. intros [[-> ->]|[-> ->]]; vm_compute; reflexivity. Qed.

(** X14. Every sample the acquisition loop converts, before the baseline
    is subtracted, lies within the range the sensor is configured for: an
    accelerometer sample between -2 and 2 (g), a gyroscope sample between
    -287 and 287 (dps); none is a NaN or an infinity. *)
Theorem live_phys_range (lo hi : byte) :
  fleb (of_int (- 2)) (live_phys lo hi ACC_LSB) = true /\
  fleb (live_phys lo hi ACC_LSB) (of_int 2) = true /\
  fleb (of_int (- 287)) (live_phys lo hi GYR_LSB) = true /\
  fleb (live_phys lo hi GYR_LSB) (of_int 287) = true.
Proof.
  pose proof (u8_range lo) as Hlo. pose proof (u8_range hi) as Hhi.
  pose proof (all_from_spec _ _ _
                (live_phys_range_check ACC_LSB 2 (or_introl (conj eq_refl eq_refl)))
                (u8 lo) ltac:(lia)) as A1.
  cbv beta in A1. pose proof (all_from_spec _ _ _ A1 (u8 hi) ltac:(lia)) as A2.
  cbv beta in A2. apply andb_true_iff in A2 as [A2 A3].
  pose proof (all_from_spec _ _ _
                (live_phys_range_check GYR_LSB 287 (or_intror (conj eq_refl eq_refl)))
                (u8 lo) ltac:(lia)) as G1.
  cbv beta in G1. pose proof (all_from_spec _ _ _ G1 (u8 hi) ltac:(lia)) as G2.
  cbv beta in G2. apply andb_true_iff in G2 as [G2 G3].
  unfold live_phys, live_raw, assemble. repeat split; assumption.
Qed.

(** ** Sensor address detection *)

(** X15. The address probe ends with [LSM_ADDR] at one of the two 8-bit
    addresses, never at its initial 0: at 0xD4 exactly when the device
    answers the identifier 0x6A there, and otherwise at 0xD6 whether or not
    anything answered there; the "Found" line is printed exactly when one
    of the two probes read the identifier, with the 7-bit address of that
    probe. When no probe reads the identifier the program goes on with
    0xD6 and prints nothing. *)
Theorem detect_address (who : Z -> byte) :
  fst (detect who) = (if u8 (who 212) =? WHO_AM_I_ID then 212 else 214) /\
  snd (detect who)
  = (if u8 (who 212) =? WHO_AM_I_ID then Some 106
     else if u8 (who 214) =? WHO_AM_I_ID then Some 107 else None).
Proof.
  unfold detect. cbn [detect_from].
  change (Z.shiftl 106 1) with 212. change (Z.shiftl 107 1) with 214.
  destruct (u8 (who 212) =? WHO_AM_I_ID); [split; reflexivity|].
  destruct (u8 (who 214) =? WHO_AM_I_ID); split; reflexivity.
Qed.

(** ** The blinking feedback of the variant without calibration *)

Lemma blink_loop_always_on half duty n : forall cnt,
  0 <= cnt < half -> half <= INT_MAX ->
  Blink.blink_loop n half duty cnt = repeat duty n.
Proof.
  change INT_MAX with 2147483647.
  induction n as [|n IH]; intros cnt Hc Hh; [reflexivity|].
  cbn [Blink.blink_loop repeat]. unfold Blink.blink_tick.
  assert (E : (cnt <? half) = true) by (apply Z.ltb_lt; lia).
  rewrite E, wrap32_small by (change (2 ^ 31) with 2147483648; lia).
  f_equal. destruct (half <=? cnt + 1) eqn:E1.
  - apply IH; lia.
  - apply Z.leb_gt in E1. apply IH; lia.
Qed.

(** X16. In the feedback loop of the variant without calibration the
    counter is reset before it can reach [half_period], so the test
    [cnt < half_period] holds on every due-signal: when a condition wins,
    each of the [N] writes of the loop is the duty cycle and the LED is
    never written 0 during the loop, so it does not blink; when no condition
    wins the only write is 0. *)
Theorem blink_feedback_never_dark (w : decision) :
  Blink.feedback w
  = match tie_break w with
    | WinDyskinesia => repeat (levelD w) (Z.to_nat Blink.N)
    | WinTremor => repeat (levelT w) (Z.to_nat Blink.N)
    | WinNone => [fzero]
    end.
Proof.
  unfold Blink.feedback. destruct (tie_break w); [| |reflexivity];
    apply blink_loop_always_on; vm_compute; try split; congruence.
Qed.

(** ** One pass of the main loop *)

Lemma spectral_startup_total mag :
  Z.of_nat (length mag) = FFTN / 2 -> exists r, spectral (mkBins 7 12 17) mag = Some r.
Proof.
  intros Hlen. change (FFTN / 2) with 128 in Hlen.
  unfold spectral, for_lt, for_le. cbn [i3 i5 i7].
  change (wrap32 (17 + 3)) with 20. change (wrap32 (17 + 2)) with 19.
  rewrite rms_loop by lia.
  destruct (for_range_total (peak_body mag) (Z.to_nat (12 + 1 - 7)) 7 (fzero, 7))
    as [[p35 k35] ->].
  { intros j x Hj. apply peak_body_in_range. lia. }
  destruct (for_range_total (peak_body mag) (Z.to_nat (17 + 1 - 12)) 12 (fzero, 12))
    as [[p57 k57] ->].
  { intros j x Hj. apply peak_body_in_range. lia. }
  eauto.
Qed.

Lemma analyze_channels_total transform_mag bufs cs : forall a,
  (forall d, Z.of_nat (length (transform_mag d)) = FFTN / 2) ->
  exists a', analyze_channels transform_mag (mkBins 7 12 17) bufs cs a = Some a'.
Proof.
  induction cs as [|c cs IH]; intros a Ht; cbn [analyze_channels]; [eauto|].
  unfold analyze.
  destruct (spectral_startup_total (transform_mag (buffer_of bufs c)) (Ht _)) as [r ->].
  apply IH. exact Ht.
Qed.

(** X17. With the startup bins and a transform that returns [FFTN / 2]
    magnitudes, a pass of the main loop fails only by running out of
    ticks: it produces its decision step exactly when [N] ticks with both
    reads succeeding are available, whatever the ticks hold and whatever
    the buffers held before, and it then has consumed exactly [N] of those
    ticks; the analysis after a completed acquisition never reads outside
    the magnitude array. *)
Theorem main_window_completes_iff
    (transform_mag : list float -> list float) (sw : Z)
    (g : globals) (l : leds) (bufs : buffers) (ts : list tick) :
  (forall d, Z.of_nat (length (transform_mag d)) = FFTN / 2) ->
  match main_window transform_mag (mkBins 7 12 17) sw g l bufs ts with
  | None => count_complete ts < N
  | Some (_, rest) =>
      N <= count_complete ts /\ count_complete rest = count_complete ts - N
  end.
Proof.
  intros Ht.
  assert (HN : 0 <= 0 <= N) by (vm_compute; split; discriminate).
  destruct (acq_window_count g ts bufs 0 HN) as [Hn Hs].
  unfold main_window, acquire.
  destruct (acq_window ts g bufs 0) as [[b1 r]|].
  - unfold analyze_window.
    destruct (analyze_channels_total transform_mag (zero_pad_all b1) channels
                no_decision Ht) as [a ->].
    specialize (Hs b1 r eq_refl). split; [|lia].
    destruct (Z_lt_le_dec (count_complete ts) N) as [Hlt|Hle]; [|exact Hle].
    destruct Hn as [_ Hn].
    assert (Hlt' : count_complete ts < N - 0) by lia.
    specialize (Hn Hlt'). discriminate.
  - destruct Hn as [Hn _]. specialize (Hn eq_refl). lia.
Qed.

Lemma main_window_completes_iff_witness :
  match main_window (fun d => firstn 128 (map SFabs d ++ repeat fzero 128))
                    (mkBins 7 12 17) STABLE_WINDOWS boot leds_boot zero_buffers
                    (map ok_tick (repeat (frame_of x10 x00, frame_of xfd xff) 104)) with
  | None =>
      count_complete (map ok_tick (repeat (frame_of x10 x00, frame_of xfd xff) 104)) < N
  | Some (_, rest) =>
      N <= count_complete (map ok_tick (repeat (frame_of x10 x00, frame_of xfd xff) 104)) /\
      count_complete rest
      = count_complete (map ok_tick (repeat (frame_of x10 x00, frame_of xfd xff) 104)) - N
  end.
Proof.
  apply (main_window_completes_iff
           (fun d => firstn 128 (map SFabs d ++ repeat fzero 128))
           STABLE_WINDOWS boot leds_boot zero_buffers
           (map ok_tick (repeat (frame_of x10 x00, frame_of xfd xff) 104))).
  intros d. rewrite length_firstn, length_app, length_map, repeat_length.
  change (FFTN / 2) with 128. lia.
Defined.
